(** * knitit: the even-distribution / minimal-repeat engine

    A shallow embedding of the pick-up planning code of the gauge
    calculator (the JavaScript of [script.js] and of its later revisions),
    and the properties of its distribution engine.

    Numbers.  JavaScript has one number type, the IEEE double (binary64).
    - Counts (stitches, rows, indices) are integers, modelled as [Z].
      Sums, differences and remainders of integers are exact in doubles
      below 2^53.
    - The generator divides: it takes
      [Math.round((row + 1) * totalStitches / totalRows)].  Module
      [Counts] computes the quotient exactly, as a rational.  Module
      [Doubles] is the same loop with every operation rounded to the
      nearest double ([Binary64.fl64]).  The two agree while
      [totalRows * (totalStitches + 1) < 2^52] (lemma
      [doubles_generate_exact]): every dividend is then below 2^52, and the
      double nearest to the quotient lies on the same side of every
      half-integer as the quotient itself.  Beyond that range they differ,
      at [(3194649683606489, 3)] for one; what is proved of the
      distribution is stated within the range.
    - Measured values (gauges, measurements, ratios) are rationals.  Size
      selection and the gauge combination round every product, quotient
      and difference to the nearest double.  The pick-up ratio is computed
      exactly, so the count of [calculatePickup] can be one off the
      machine's where the exact product is within a rounding error of a
      half-integer; what is proved of the pick-up flow holds for every
      value of the count.
    - An overflow to [Infinity] is not modelled.  [NaN] from an empty or
      unparsable form field is [None]. *)

From Stdlib Require Import ZArith QArith Qreduction Qround Qabs Znumtheory List Lia Lqa Bool.
From Stdlib Require Import Ascii String DecimalString.
From Equations Require Import Equations.
Import ListNotations.

Local Open Scope Z_scope.

(** ** Math.round and the Rational Reducer *)

(** [Math.round(x)]: the integer nearest to [x], ties towards +infinity. *)
Definition Math_round (x : Q) : Z := Qfloor (x + (1 # 2)).

(** [p / q] for two integer-valued numbers. *)
Definition js_div (p q : Z) : Q := (inject_Z p / inject_Z q)%Q.

(** ** Double precision

    The finite doubles are the rationals [m * 2^e] with [|m| < 2^53] and
    [e >= -1074].  An arithmetic operation of the machine returns the double
    nearest to the exact result, the one with the even [m] on a tie. *)

Module Binary64.

(** [n / d] rounded to the nearest integer, to the even one on a tie;
    [d > 0]. *)
Definition rne_div (n d : Z) : Z :=
  let q := n / d in
  let r := n mod d in
  match 2 * r ?= d with
  | Lt => q
  | Gt => q + 1
  | Eq => if Z.even q then q else q + 1
  end.

(** The whole part of [log2 (a / b)] for positive [a] and [b]: [a] is
    scaled by a power of two that makes the quotient 1 or more. *)
Definition ilog2 (a b : Z) : Z :=
  let k := Z.log2 b + 1 in
  Z.log2 (a * 2 ^ k / b) - k.

(** The double nearest to [a / b], for positive [a] and [b]: 53 significant
    bits, fewer below 2^-1022. *)
Definition nearest (a b : Z) : Q :=
  let e := Z.max (ilog2 a b - 52) (-1074) in
  if 0 <=? e then inject_Z (rne_div a (b * 2 ^ e) * 2 ^ e)
  else Qred (rne_div (a * 2 ^ (- e)) b # Z.to_pos (2 ^ (- e))).

(** The double nearest to a rational. *)
Definition fl64 (x : Q) : Q :=
  let x' := Qred x in
  match Qnum x' with
  | 0 => 0%Q
  | Zpos a => nearest (Zpos a) (Zpos (Qden x'))
  | Zneg a => (- nearest (Zpos a) (Zpos (Qden x')))%Q
  end.

(** [x * y], [x / y] (for [y] other than 0) and [x - y] of the machine. *)
Definition mul (x y : Q) : Q := fl64 (x * y).
Definition div (x y : Q) : Q := fl64 (x / y).

(** The double nearest to an integer is an integer. *)
Definition int (z : Z) : Z := Qfloor (fl64 (inject_Z z)).

End Binary64.

(** The body of [gcd]'s loop:
<<
    while (b !== 0) { const temp = b; b = a % b; a = temp; }
    return a;
>>
    [%] is the truncated remainder, [Z.rem]. *)
Equations? gcd_loop (a b : Z) : Z by wf (Z.abs_nat b) lt :=
  gcd_loop a b with Z.eq_dec b 0 => {
    | left _ := a;
    | right _ := gcd_loop b (Z.rem a b) }.
Proof.
  pose proof (Z.rem_bound_abs a b ltac:(assumption)). lia.
Qed.

(** [function gcd(a, b)]: both arguments are rounded first. *)
Definition gcd (a b : Q) : Z := gcd_loop (Math_round a) (Math_round b).

(** [gcd] at two counts. *)
Definition gcdZ (a b : Z) : Z := gcd (inject_Z a) (inject_Z b).

(** [x / g] where [g] came from [gcd]: the quotient of two counts, [NaN]
    ([None]) when the divisor is 0 (then both arguments of [gcd] were 0).
    A nonzero [g] divides [x] (lemma [gcd_loop_divides]), so the quotient is
    the integer [x / g]. *)
Definition js_quot (x g : Z) : option Z :=
  if g =? 0 then None else Some (x / g).

(** [`${n}`] for an integer-valued number. *)
Definition string_of_Z (n : Z) : string := NilZero.string_of_int (Z.to_int n).

(** [`row${n !== 1 ? 's' : ''}`] and the like. *)
Definition plural (n : Z) : string := if n =? 1 then "" else "s".

(** [parts.join(sep)]. *)
Fixpoint join (sep : string) (parts : list string) : string :=
  match parts with
  | [] => ""
  | [p] => p
  | p :: ps => p ++ sep ++ join sep ps
  end.

(** [!x] for a parsed form field: true for [NaN] and for 0. *)
Definition falsyQ (x : option Q) : bool :=
  match x with None => true | Some q => Qeq_bool q 0 end.

(** [`${x}`] for a number that may be [NaN]. *)
Definition string_of_num (x : option Z) : string :=
  match x with None => "NaN" | Some z => string_of_Z z end.

(** ** Run scans, shared by the revisions

    Both revisions scan a distribution for runs of equal entries with the
    same two loops; they differ in the type of the entries (counts or
    booleans) and in the names of the record fields. *)

Section Runs.

Context {A : Type} (eqb : A -> A -> bool).

(** A run: the repeated value and the number of rows it covers. *)
Record Run (V : Type) : Type := mkRun { run_value : V; run_rows : Z }.
Arguments mkRun {V}.

(** [===] between a value read from the array and [currentCount];
    [None] is [undefined], what [distribution[0]] is on an empty array. *)
Definition strict_eq (x y : option A) : bool :=
  match x, y with
  | Some a, Some b => eqb a b
  | None, None => true
  | _, _ => false
  end.

(** The loop of [describeDistribution] over [distribution[1..]], followed
    by the final [runs.push]. *)
Fixpoint run_loop (rest : list A) (currentCount : option A) (runLength : Z)
  : list (Run (option A)) :=
  match rest with
  | [] => [mkRun currentCount runLength]
  | x :: rest' =>
      if strict_eq (Some x) currentCount
      then run_loop rest' currentCount (runLength + 1)
      else mkRun currentCount runLength :: run_loop rest' (Some x) 1
  end.

Definition run_scan (distribution : list A) : list (Run (option A)) :=
  run_loop (tl distribution) (hd_error distribution) 1.

(** The inner loop of [findMinimalRepeat]:
<<
    while (i < pattern.length && pattern[i] === stitchCount) { rows++; i++; }
>>
    on the part of [pattern] from index [i] on; it returns [rows] and the
    part that is left. *)
Fixpoint count_run (stitchCount : A) (rows : Z) (l : list A) : Z * list A :=
  match l with
  | [] => (rows, [])
  | x :: l' =>
      if eqb x stitchCount then count_run stitchCount (rows + 1) l'
      else (rows, l)
  end.

Lemma count_run_length stitchCount rows l :
  (List.length (snd (count_run stitchCount rows l)) <= List.length l)%nat.
Proof.
  revert rows. induction l as [|x l IH]; intros rows; simpl.
  - lia.
  - destruct (eqb x stitchCount); simpl; [specialize (IH (rows + 1)); lia | lia].
Qed.

(** The outer loop of [findMinimalRepeat].  The inner loop's first test
    compares [pattern[i]] with itself, so its first round always runs:
    the inner loop is entered after it, with [rows = 1]. *)
Equations? sequences_of (pattern : list A) : list (Run A)
  by wf (List.length pattern) lt :=
  sequences_of [] := [];
  sequences_of (stitchCount :: rest) :=
    mkRun stitchCount (fst (count_run stitchCount 1 rest))
      :: sequences_of (snd (count_run stitchCount 1 rest)).
Proof.
  pose proof (count_run_length stitchCount 1 rest). simpl. lia.
Qed.

End Runs.

Arguments mkRun {V}.
Arguments run_value {V}.
Arguments run_rows {V}.

(** ** The pick-up form and the trace of a computation *)

(** The fields of the pick-up form after [parseFloat] / [parseInt]. *)
Record PickupForm : Type := {
  pickupPersonalGaugeHInput : option Q;
  pickupPersonalGaugeVInput : option Q;
  pickupPatternGaugeHInput : option Q;
  pickupPatternGaugeVInput : option Q;
  pickupStitchesInput : option Z;
  pickupRowsInput : option Z;
  totalRowsInput : option Z
}.

Record AdjustedRatio : Type := {
  rawStitches : Q;
  rawRows : Q;
  ratio : Q
}.

(** [calculateAdjustedPickupRatio]: [null] when a field is missing or 0. *)
Definition calculateAdjustedPickupRatio
    (patternStitches patternRows : option Z)
    (personalGaugeH personalGaugeV patternGaugeH patternGaugeV : option Q)
  : option AdjustedRatio :=
  match patternStitches, patternRows,
        personalGaugeH, personalGaugeV, patternGaugeH, patternGaugeV with
  | Some ps, Some pr, Some gh, Some gv, Some ph, Some pv =>
      if (ps =? 0) || (pr =? 0) || Qeq_bool gh 0 || Qeq_bool gv 0
         || Qeq_bool ph 0 || Qeq_bool pv 0
      then None
      else
        let adjustedStitches := (inject_Z ps * (gh / ph))%Q in
        let adjustedRows := (inject_Z pr * (gv / pv))%Q in
        Some {| rawStitches := adjustedStitches;
                rawRows := adjustedRows;
                ratio := (adjustedStitches / adjustedRows)%Q |}
  | _, _, _, _, _, _ => None
  end.

(** What a computation does that can be observed: it calls the
    distribution generator, shows an error, or displays a result. *)
Inductive event (R : Type) : Type :=
| CallGenerate (totalStitches totalRows : option Z)
| ShowPickupError (message : string)
| DisplayPickupResult (shown : R).
Arguments CallGenerate {R}.
Arguments ShowPickupError {R}.
Arguments DisplayPickupResult {R}.

(** A computation with its trace of events. *)
Definition Trace (R A : Type) : Type := (list (event R) * A)%type.

Definition ret {R A} (a : A) : Trace R A := ([], a).

Definition bind {R A B} (m : Trace R A) (f : A -> Trace R B) : Trace R B :=
  let (t1, a) := m in
  let (t2, b) := f a in
  (t1 ++ t2, b).

Definition emit {R} (e : event R) : Trace R unit := ([e], tt).

Definition value {R A} (m : Trace R A) : A := snd m.

Declare Scope trace_scope.
Delimit Scope trace_scope with trace.
Notation "x <- m ;; k" := (bind m (fun x => k))
  (at level 61, m at next level, right associativity) : trace_scope.
Notation "m ;;; k" := (bind m (fun _ => k))
  (at level 61, right associativity) : trace_scope.


(** ** The run-based planner [calculateDistribution]

    Kept by every revision next to the generator; nothing calls it. *)

Inductive StepType : Type := pickup_step | skip_step.

Record Step : Type := { type : StepType; count : Z }.

Definition same_type (a b : StepType) : bool :=
  match a, b with
  | pickup_step, pickup_step | skip_step, skip_step => true
  | _, _ => false
  end.

(** The [while (remainingPickups > 0 || remainingSkips > 0)] loop.  Both
    counters are positive in the first branch, so [ratio >= 1] is
    [remainingPickups >= remainingSkips]. *)
Equations? plan_loop (remainingPickups remainingSkips : Z) : list Step
  by wf (Z.to_nat remainingPickups + Z.to_nat remainingSkips)%nat lt :=
  plan_loop remainingPickups remainingSkips
    with Z_gt_dec remainingPickups 0, Z_gt_dec remainingSkips 0 => {
    | left _, left _ with Z_ge_dec remainingPickups remainingSkips => {
        | left _ :=
            {| type := pickup_step; count := 1 |}
              :: plan_loop (remainingPickups - 1) remainingSkips;
        | right _ :=
            {| type := skip_step; count := 1 |}
              :: plan_loop remainingPickups (remainingSkips - 1) };
    | left _, right _ := [{| type := pickup_step; count := remainingPickups |}];
    | right _, left _ := [{| type := skip_step; count := remainingSkips |}];
    | right _, right _ := [] }.
Proof. all: lia. Qed.

(** The merge of neighbouring steps of one type; [last] is the last
    element of [mergedPattern], kept apart from the elements before it
    (in reverse order). *)
Fixpoint merge_loop (pattern : list Step) (before : list Step) (last : option Step)
  : list Step :=
  match pattern with
  | [] => rev (match last with Some l => l :: before | None => before end)
  | item :: pattern' =>
      match last with
      | Some l =>
          if same_type (type l) (type item)
          then merge_loop pattern' before
                 (Some {| type := type l; count := count l + count item |})
          else merge_loop pattern' (l :: before) (Some item)
      | None => merge_loop pattern' before (Some item)
      end
  end.

Record Distribution : Type := {
  dist_totalStitches : Z;
  dist_totalRows : Z;
  cycleLength : Z;
  pickupsPerCycle : Z;
  skipsPerCycle : Z;
  dist_pattern : list Step;
  cycles : Z
}.

(** [calculateDistribution]: an error object, or the plan.  Past the
    guard [skips] is positive, so [g] is not 0 and divides both counts. *)
Definition calculateDistribution (totalStitches totalRows : Z)
  : string + Distribution :=
  if totalStitches >=? totalRows
  then inl "Cannot pick up more stitches than rows"%string
  else
    let skips := totalRows - totalStitches in
    let g := gcdZ totalStitches skips in
    let pickupPerCycle := totalStitches / g in
    let skipPerCycle := skips / g in
    let cycleLength := pickupPerCycle + skipPerCycle in
    let pattern := plan_loop pickupPerCycle skipPerCycle in
    let mergedPattern := merge_loop pattern [] None in
    inr {| dist_totalStitches := totalStitches;
           dist_totalRows := totalRows;
           cycleLength := cycleLength;
           pickupsPerCycle := pickupPerCycle;
           skipsPerCycle := skipPerCycle;
           dist_pattern := mergedPattern;
           cycles := g |}.

(** ** The integer-count revision (entries are counts per row) *)

Module Counts.

(** The [for] loop of [generateEvenDistribution]; [row] and
    [stitchesPlaced] are the loop's variables, [result.push] conses. *)
Equations? loop (totalStitches totalRows row stitchesPlaced : Z) : list Z
  by wf (Z.to_nat (totalRows - row)) lt :=
  loop totalStitches totalRows row stitchesPlaced with Z_lt_dec row totalRows => {
    | left _ :=
        let expectedStitches :=
          Math_round (js_div ((row + 1) * totalStitches) totalRows) in
        let stitchesThisRow := expectedStitches - stitchesPlaced in
        stitchesThisRow :: loop totalStitches totalRows (row + 1) expectedStitches;
    | right _ := [] }.
Proof. lia. Qed.

Definition generateEvenDistribution (totalStitches totalRows : Z) : list Z :=
  loop totalStitches totalRows 0 0.

(** The generator at numbers that may be [NaN].  With [totalRows = NaN]
    the test [row < totalRows] is false and the loop body never runs.
    ([findMinimalRepeat] divides both counts by the same [g], so it never
    passes a [NaN] count together with a numeric row count.) *)
Definition generate_num (totalStitches totalRows : option Z) : list Z :=
  match totalStitches, totalRows with
  | Some s, Some r => generateEvenDistribution s r
  | _, _ => []
  end.

Record DistributionInfo : Type := {
  distribution : list Z;
  runs : list (Run (option Z));
  totalStitches : Z;
  totalRows : Z
}.

Definition stitchesPerRow (r : Run (option Z)) : option Z := run_value r.
Definition stitches (s : Run Z) : Z := run_value s.
Definition rows {V} (r : Run V) : Z := run_rows r.

Record MinimalRepeat : Type := {
  cycleStitches : option Z;
  cycleRows : option Z;
  repeats : Z;
  pattern : list Z;
  sequences : list (Run Z);
  description : string
}.

(** One marker of the dot picture. *)
Inductive Dot : Type :=
| DotSkip
| DotPickup
| DotMulti (count : Z).

(** The text of the elements that [displayPickupResult] fills in. *)
Record PickupDisplay : Type := {
  pickup_summary : string;
  pattern_text : string;
  repeat_info : string;
  dot_heading : string;
  dot_pattern : list Dot;
  pattern_note : string
}.

Definition M : Type -> Type := Trace PickupDisplay.

Local Open Scope trace_scope.
Local Open Scope string_scope.

(** A call of [generateEvenDistribution], recorded in the trace. *)
Definition call_generate (totalStitches totalRows : option Z) : M (list Z) :=
  emit (CallGenerate totalStitches totalRows) ;;;
  ret (generate_num totalStitches totalRows).

(** [describeDistribution]; the tally [runCounts] of equal runs, which
    nothing reads, is left out. *)
Definition describeDistribution (totalStitches totalRows : Z)
  : M DistributionInfo :=
  distribution <- call_generate (Some totalStitches) (Some totalRows) ;;
  ret {| distribution := distribution;
         runs := run_scan Z.eqb distribution;
         totalStitches := totalStitches;
         totalRows := totalRows |}.

(** One fragment of a description of several runs. *)
Definition part (s : Run Z) : string :=
  if (stitches s =? 0)%Z then "skip " ++ string_of_Z (rows s)
  else if (rows s =? 1)%Z then "pick up " ++ string_of_Z (stitches s)
  else "pick up " ++ string_of_Z (stitches s) ++ " × "
         ++ string_of_Z (rows s) ++ " rows".

(** The [description] that [findMinimalRepeat] builds from [sequences]. *)
Definition describe (sequences : list (Run Z)) : string :=
  match sequences with
  | [s] =>
      if (stitches s =? 0)%Z then
        "Skip " ++ string_of_Z (rows s) ++ " row" ++ plural (rows s)
      else if (stitches s =? 1)%Z then
        "Pick up 1 from each of " ++ string_of_Z (rows s)
          ++ " row" ++ plural (rows s)
      else
        "Pick up " ++ string_of_Z (stitches s) ++ " from each of "
          ++ string_of_Z (rows s) ++ " row" ++ plural (rows s)
  | _ => join " → " (map part sequences)
  end.

Definition findMinimalRepeat (totalStitches totalRows : Z) : M MinimalRepeat :=
  let g := gcdZ totalStitches totalRows in
  let cycleStitches := js_quot totalStitches g in
  let cycleRows := js_quot totalRows g in
  pattern <- call_generate cycleStitches cycleRows ;;
  let sequences := sequences_of Z.eqb pattern in
  ret {| cycleStitches := cycleStitches;
         cycleRows := cycleRows;
         repeats := g;
         pattern := pattern;
         sequences := sequences;
         description := describe sequences |}.

Definition generateDotVisualization (distribution : list Z) : list Dot :=
  map (fun count =>
         if (count =? 0)%Z then DotSkip
         else if (count =? 1)%Z then DotPickup
         else DotMulti count) distribution.

Definition showPickupError (message : string) : M unit :=
  emit (ShowPickupError message).

Definition displayPickupResult (adjusted : AdjustedRatio)
    (patternStitches patternRows totalRows totalStitchesToPickup : Z)
    (distributionInfo : DistributionInfo) : M unit :=
  repeatPattern <- findMinimalRepeat totalStitchesToPickup totalRows ;;
  let dotVisualization := generateDotVisualization (pattern repeatPattern) in
  emit (DisplayPickupResult
    {| pickup_summary :=
         "Pick up " ++ string_of_Z totalStitchesToPickup ++ " stitches over "
           ++ string_of_Z totalRows ++ " rows";
       pattern_text := description repeatPattern;
       repeat_info :=
         "Repeat this " ++ string_of_Z (repeats repeatPattern) ++ " time"
           ++ plural (repeats repeatPattern);
       dot_heading :=
         "One repeat (" ++ string_of_num (cycleRows repeatPattern) ++ " rows):";
       dot_pattern := dotVisualization;
       pattern_note :=
         "(Pattern says " ++ string_of_Z patternStitches ++ " per "
           ++ string_of_Z patternRows ++ " rows → adjusted for your gauge)" |}).

(** [calculatePickup] of this revision: it rejects a count below 1, and
    nothing else about the count. *)
Definition calculatePickup (form : PickupForm) : M unit :=
  let personalGaugeH := pickupPersonalGaugeHInput form in
  let personalGaugeV := pickupPersonalGaugeVInput form in
  let patternGaugeH := pickupPatternGaugeHInput form in
  let patternGaugeV := pickupPatternGaugeVInput form in
  if falsyQ personalGaugeH || falsyQ personalGaugeV
     || falsyQ patternGaugeH || falsyQ patternGaugeV
  then showPickupError "Please enter all gauge values."
  else
  match pickupStitchesInput form, pickupRowsInput form with
  | Some patternStitches, Some patternRows =>
    if (patternStitches =? 0)%Z || (patternRows =? 0)%Z
    then showPickupError
      "Please enter the pattern's pick-up instruction (stitches per rows)."
    else
    match totalRowsInput form with
    | Some totalRows =>
      if (totalRows =? 0)%Z
      then showPickupError "Please enter the total rows along your edge."
      else
      match calculateAdjustedPickupRatio (Some patternStitches) (Some patternRows)
              personalGaugeH personalGaugeV patternGaugeH patternGaugeV with
      | None =>
        showPickupError
          "Could not calculate adjusted ratio. Please check your inputs."
      | Some adjusted =>
        let totalStitchesToPickup :=
          Math_round (inject_Z totalRows * ratio adjusted) in
        if (totalStitchesToPickup <? 1)%Z
        then showPickupError
          "The calculated pick-up count is too low. Please check your gauge values."
        else
          distributionInfo <- describeDistribution totalStitchesToPickup totalRows ;;
          displayPickupResult adjusted patternStitches patternRows totalRows
            totalStitchesToPickup distributionInfo
      end
    | None => showPickupError "Please enter the total rows along your edge."
    end
  | _, _ =>
    showPickupError
      "Please enter the pattern's pick-up instruction (stitches per rows)."
  end.

(** [calculatePickup] from the count on: its statements after
    [const totalStitchesToPickup = Math.round(totalRows * adjusted.ratio)],
    for any value of the count. *)
Definition calculatePickup_from_count (adjusted : AdjustedRatio)
    (patternStitches patternRows totalRows totalStitchesToPickup : Z) : M unit :=
  if (totalStitchesToPickup <? 1)%Z
  then showPickupError
    "The calculated pick-up count is too low. Please check your gauge values."
  else
    distributionInfo <- describeDistribution totalStitchesToPickup totalRows ;;
    displayPickupResult adjusted patternStitches patternRows totalRows
      totalStitchesToPickup distributionInfo.

End Counts.

(** ** The boolean revision (an entry says whether the row is picked up) *)

Module Flags.

Equations? loop (totalStitches totalRows row stitchesPlaced : Z) : list bool
  by wf (Z.to_nat (totalRows - row)) lt :=
  loop totalStitches totalRows row stitchesPlaced with Z_lt_dec row totalRows => {
    | left _ :=
        let expectedStitches :=
          Math_round (js_div ((row + 1) * totalStitches) totalRows) in
        if expectedStitches >? stitchesPlaced
        then true :: loop totalStitches totalRows (row + 1) (stitchesPlaced + 1)
        else false :: loop totalStitches totalRows (row + 1) stitchesPlaced;
    | right _ := [] }.
Proof. all: lia. Qed.

Definition generateEvenDistribution (totalStitches totalRows : Z) : list bool :=
  loop totalStitches totalRows 0 0.

(** As in the other revision: no rows, no entries. *)
Definition generate_num (totalStitches totalRows : option Z) : list bool :=
  match totalStitches, totalRows with
  | Some s, Some r => generateEvenDistribution s r
  | _, _ => []
  end.

Record DistributionInfo : Type := {
  distribution : list bool;
  runs : list (Run (option bool));
  totalStitches : Z;
  totalRows : Z
}.

Definition pickup {V} (r : Run V) : V := run_value r.
Definition count {V} (r : Run V) : Z := run_rows r.

Record MinimalRepeat : Type := {
  cycleStitches : option Z;
  cycleRows : option Z;
  repeats : Z;
  pattern : list bool;
  sequences : list (Run bool);
  description : string
}.

Record PickupDisplay : Type := {
  pickup_summary : string;
  pattern_text : string;
  repeat_info : string;
  dot_heading : string;
  dot_pattern : list bool;
  pattern_note : string
}.

Definition M : Type -> Type := Trace PickupDisplay.

Local Open Scope trace_scope.
Local Open Scope string_scope.

Definition call_generate (totalStitches totalRows : option Z) : M (list bool) :=
  emit (CallGenerate totalStitches totalRows) ;;;
  ret (generate_num totalStitches totalRows).

Definition describeDistribution (totalStitches totalRows : Z)
  : M DistributionInfo :=
  distribution <- call_generate (Some totalStitches) (Some totalRows) ;;
  ret {| distribution := distribution;
         runs := run_scan Bool.eqb distribution;
         totalStitches := totalStitches;
         totalRows := totalRows |}.

Definition part (s : Run bool) : string :=
  if pickup s then "pick up " ++ string_of_Z (count s)
  else "skip " ++ string_of_Z (count s).

Definition describe (sequences : list (Run bool)) : string :=
  match sequences with
  | [s] =>
      if pickup s then "Pick up " ++ string_of_Z (count s) ++ " in a row"
      else "Skip " ++ string_of_Z (count s) ++ " in a row"
  | [_; _] => join ", then " (map part sequences)
  | _ => join " → " (map part sequences)
  end.

Definition findMinimalRepeat (totalStitches totalRows : Z) : M MinimalRepeat :=
  let g := gcdZ totalStitches totalRows in
  let cycleStitches := js_quot totalStitches g in
  let cycleRows := js_quot totalRows g in
  pattern <- call_generate cycleStitches cycleRows ;;
  let sequences := sequences_of Bool.eqb pattern in
  ret {| cycleStitches := cycleStitches;
         cycleRows := cycleRows;
         repeats := g;
         pattern := pattern;
         sequences := sequences;
         description := describe sequences |}.

(** A dot is a pick-up dot or a plain one. *)
Definition generateDotVisualization (distribution : list bool) : list bool :=
  map (fun isPickup => isPickup) distribution.

Definition showPickupError (message : string) : M unit :=
  emit (ShowPickupError message).

Definition displayPickupResult (adjusted : AdjustedRatio)
    (patternStitches patternRows totalRows totalStitchesToPickup : Z)
    (distributionInfo : DistributionInfo) : M unit :=
  repeatPattern <- findMinimalRepeat totalStitchesToPickup totalRows ;;
  let dotVisualization := generateDotVisualization (pattern repeatPattern) in
  emit (DisplayPickupResult
    {| pickup_summary :=
         "Pick up " ++ string_of_Z totalStitchesToPickup ++ " stitches over "
           ++ string_of_Z totalRows ++ " rows";
       pattern_text := description repeatPattern;
       repeat_info :=
         "Repeat this " ++ string_of_Z (repeats repeatPattern) ++ " time"
           ++ plural (repeats repeatPattern);
       dot_heading :=
         "One repeat (" ++ string_of_num (cycleRows repeatPattern) ++ " rows):";
       dot_pattern := dotVisualization;
       pattern_note :=
         "(Pattern says " ++ string_of_Z patternStitches ++ " per "
           ++ string_of_Z patternRows ++ " rows → adjusted for your gauge)" |}).

(** [calculatePickup] of this revision: the gauges are read from the shared
    gauge inputs and checked by [calculateAdjustedPickupRatio] only; a
    count that reaches the row count is rejected. *)
Definition calculatePickup (form : PickupForm) : M unit :=
  let personalGaugeH := pickupPersonalGaugeHInput form in
  let personalGaugeV := pickupPersonalGaugeVInput form in
  let patternGaugeH := pickupPatternGaugeHInput form in
  let patternGaugeV := pickupPatternGaugeVInput form in
  match pickupStitchesInput form, pickupRowsInput form with
  | Some patternStitches, Some patternRows =>
    if (patternStitches =? 0)%Z || (patternRows =? 0)%Z
    then showPickupError
      "Please enter the pattern's pick-up instruction (stitches per rows)."
    else
    match totalRowsInput form with
    | Some totalRows =>
      if (totalRows =? 0)%Z
      then showPickupError "Please enter the total rows along your edge."
      else
      match calculateAdjustedPickupRatio (Some patternStitches) (Some patternRows)
              personalGaugeH personalGaugeV patternGaugeH patternGaugeV with
      | None =>
        showPickupError
          "Could not calculate adjusted ratio. Please check your inputs."
      | Some adjusted =>
        let totalStitchesToPickup :=
          Math_round (inject_Z totalRows * ratio adjusted) in
        if (totalStitchesToPickup >=? totalRows)%Z
        then showPickupError
          "The calculated pick-up count exceeds your row count. This would mean picking up more than one stitch per row, which isn't possible for vertical edges."
        else
        if (totalStitchesToPickup <? 1)%Z
        then showPickupError
          "The calculated pick-up count is too low. Please check your gauge values."
        else
          distributionInfo <- describeDistribution totalStitchesToPickup totalRows ;;
          displayPickupResult adjusted patternStitches patternRows totalRows
            totalStitchesToPickup distributionInfo
      end
    | None => showPickupError "Please enter the total rows along your edge."
    end
  | _, _ =>
    showPickupError
      "Please enter the pattern's pick-up instruction (stitches per rows)."
  end.

(** [calculatePickup] from the count on, as in the other revision: the
    statements after the count is computed, for any value of it. *)
Definition calculatePickup_from_count (adjusted : AdjustedRatio)
    (patternStitches patternRows totalRows totalStitchesToPickup : Z) : M unit :=
  if (totalStitchesToPickup >=? totalRows)%Z
  then showPickupError
    "The calculated pick-up count exceeds your row count. This would mean picking up more than one stitch per row, which isn't possible for vertical edges."
  else
  if (totalStitchesToPickup <? 1)%Z
  then showPickupError
    "The calculated pick-up count is too low. Please check your gauge values."
  else
    distributionInfo <- describeDistribution totalStitchesToPickup totalRows ;;
    displayPickupResult adjusted patternStitches patternRows totalRows
      totalStitchesToPickup distributionInfo.

End Flags.

(** ** The integer-count generator in double precision

    The loop of [Counts], with the product, the quotient and the difference
    rounded as the machine rounds them. *)

Module Doubles.

Equations? loop (totalStitches totalRows row stitchesPlaced : Z) : list Z
  by wf (Z.to_nat (totalRows - row)) lt :=
  loop totalStitches totalRows row stitchesPlaced with Z_lt_dec row totalRows => {
    | left _ :=
        let expectedStitches :=
          Math_round
            (Binary64.div
               (Binary64.mul (inject_Z (row + 1)) (inject_Z totalStitches))
               (inject_Z totalRows)) in
        let stitchesThisRow := Binary64.int (expectedStitches - stitchesPlaced) in
        stitchesThisRow :: loop totalStitches totalRows (row + 1) expectedStitches;
    | right _ := [] }.
Proof. lia. Qed.

Definition generateEvenDistribution (totalStitches totalRows : Z) : list Z :=
  loop totalStitches totalRows 0 0.

End Doubles.

(** ** Size selection and gauge combination

    The functions around the engine, as every revision has them.  Their
    numbers are measured values: rationals, every product, quotient and
    difference rounded to the nearest double. *)





















(** The result of [simplifyRatio]. *)
Module Ratio.
Record t : Type := { a : Z; b : Z }.
End Ratio.

(** [simplifyRatio]; [None] when the divisor is 0, where the quotients
    are [NaN] or infinite. *)
Definition simplifyRatio (x y : Q) : option Ratio.t :=
  let divisor := gcd x y in
  if divisor =? 0 then None
  else Some {| Ratio.a := Math_round (x / inject_Z divisor);
               Ratio.b := Math_round (y / inject_Z divisor) |}.




(** ** Vocabulary of the properties *)

(** The sum of the entries of a distribution. *)
Definition sum (l : list Z) : Z := fold_right Z.add 0 l.

(** The largest and the smallest entry of a (non-empty) distribution. *)
Definition maximum (l : list Z) : Z := fold_right Z.max (hd 0 l) l.
Definition minimum (l : list Z) : Z := fold_right Z.min (hd 0 l) l.

(** [l] written [n] times in a row. *)
Fixpoint repeat_seq {A} (l : list A) (n : nat) : list A :=
  match n with
  | O => []
  | S n' => l ++ repeat_seq l n'
  end.

(** The cumulative target after [i] rows, and the entry of row [i]. *)
Definition expected (totalStitches totalRows i : Z) : Z :=
  Math_round (js_div (i * totalStitches) totalRows).

Definition entry (totalStitches totalRows i : Z) : Z :=
  expected totalStitches totalRows (i + 1) - expected totalStitches totalRows i.

(** The rows a run stands for, and the rows a list of runs stands for. *)
Definition expand {V} (r : Run V) : list V :=
  repeat (run_value r) (Z.to_nat (run_rows r)).

Definition expand_all {V} (rs : list (Run V)) : list V := flat_map expand rs.

Definition total_rows {V} (rs : list (Run V)) : Z := sum (map run_rows rs).

(** No two neighbours in the list are equal. *)
Fixpoint no_equal_neighbours {V} (l : list V) : Prop :=
  match l with
  | a :: (b :: _) as t => a <> b /\ no_equal_neighbours t
  | _ => True
  end.

(** The runs [rs] partition the sequence [d]: their rows add up to its
    length, written out in order they give [d] back, and neighbouring runs
    have different values. *)
Definition partitions {V} (rs : list (Run V)) (d : list V) : Prop :=
  total_rows rs = Z.of_nat (List.length d) /\
  expand_all rs = d /\
  no_equal_neighbours (map run_value rs).

(** The number of [true] entries. *)
Definition pickups (l : list bool) : Z :=
  Z.of_nat (List.length (filter (fun b => b) l)).




(** A run of the second scan, as the first scan writes it. *)
Definition read_run {V} (s : Run V) : Run (option V) :=
  mkRun (Some (run_value s)) (run_rows s).


(** The rows that the steps of one type cover. *)
Fixpoint steps_total (t : StepType) (l : list Step) : Z :=
  match l with
  | [] => 0
  | s :: l' => (if same_type (type s) t then count s else 0) + steps_total t l'
  end.




(** The merged list so far, newest first. *)
Definition merged_so_far (before : list Step) (last : option Step) : list Step :=
  match last with Some l => l :: before | None => before end.

(** A boolean entry as a count. *)
Definition count_of_flag (b : bool) : Z := if b then 1 else 0.

(** The counts for which the generator's quotients round as exact ones do:
    every dividend [(row + 1) * items] and the row count stay below 2^52. *)
Definition in_exact_range (items slots : Z) : Prop :=
  slots * (items + 1) < 2 ^ 52.



(** * Properties *)

(** ** Rounding *)

Lemma Math_round_js_div (p q : Z) :
  0 < q -> Math_round (js_div p q) = (2 * p + q) / (2 * q).
Proof.
  intros Hq. unfold Math_round, js_div.
  rewrite Zdiv_Qdiv. apply Qfloor_comp.
  rewrite !inject_Z_plus, !inject_Z_mult.
  field. intros H. apply (inject_Z_injective q 0) in H. lia.
Qed.

Lemma Math_round_inject_Z (z : Z) : Math_round (inject_Z z) = z.
Proof.
  unfold Math_round.
  assert (E : (inject_Z z + (1 # 2) == inject_Z (2 * z + 1) / inject_Z 2)%Q).
  { rewrite inject_Z_plus, inject_Z_mult. field. }
  rewrite (Qfloor_comp _ _ E), <- Zdiv_Qdiv.
  rewrite Z.mul_comm, Z.div_add_l by lia. change (1 / 2) with 0. lia.
Qed.

Lemma Math_round_comp (x y : Q) : (x == y)%Q -> Math_round x = Math_round y.
Proof. intros H. unfold Math_round. apply Qfloor_comp. rewrite H. reflexivity. Qed.


Lemma Math_round_Qmake (m s : Z) :
  0 < s -> Math_round (m # Z.to_pos s) = (2 * m + s) / (2 * s).
Proof.
  intros Hs. rewrite <- Math_round_js_div by assumption.
  apply Math_round_comp. unfold js_div.
  rewrite (Qmake_Qdiv m (Z.to_pos s)). rewrite Z2Pos.id by assumption. reflexivity.
Qed.

(** ** Rounding to a double *)

Lemma rne_div_bounds (n d : Z) :
  n / d <= Binary64.rne_div n d <= n / d + 1.
Proof.
  unfold Binary64.rne_div.
  destruct (2 * (n mod d) ?= d); [destruct (Z.even (n / d))| |]; lia.
Qed.

Lemma rne_div_down (n d : Z) :
  2 * (n mod d) < d -> Binary64.rne_div n d = n / d.
Proof.
  intros H. unfold Binary64.rne_div.
  destruct (Z.compare_spec (2 * (n mod d)) d); [lia | reflexivity | lia].
Qed.

Lemma rne_div_exact (n d : Z) : 0 < d -> Binary64.rne_div (n * d) d = n.
Proof.
  intros H. rewrite rne_div_down; rewrite ?Z.mod_mul by lia; [apply Z.div_mul|]; lia.
Qed.

(** [ilog2] brackets the quotient between two powers of two. *)
Lemma ilog2_spec (a b : Z) :
  0 < a -> 0 < b ->
  let k := Z.log2 b + 1 in
  let l := Z.log2 (a * 2 ^ k / b) in
  0 <= l /\ b * 2 ^ l <= a * 2 ^ k < b * 2 ^ (l + 1).
Proof.
  intros Ha Hb k l.
  pose proof (Z.log2_nonneg b) as Hlb.
  pose proof (Z.log2_spec b Hb) as [_ Hb2].
  change (Z.succ (Z.log2 b)) with (Z.log2 b + 1) in Hb2. fold k in Hb2.
  assert (Hk : 0 < 2 ^ k) by (apply Z.pow_pos_nonneg; lia).
  assert (Hn : 1 <= a * 2 ^ k / b).
  { apply Z.div_le_lower_bound; nia. }
  pose proof (Z.log2_spec (a * 2 ^ k / b) ltac:(lia)) as [Hl1 Hl2].
  fold l in Hl1, Hl2. change (Z.succ l) with (l + 1) in Hl2.
  pose proof (Z.mul_div_le (a * 2 ^ k) b Hb).
  pose proof (Z.mul_succ_div_gt (a * 2 ^ k) b Hb).
  split; [apply Z.log2_nonneg|]. split; nia.
Qed.

(** Rounding a quotient to a double does not change [Math.round] of it
    while dividend and divisor are below 2^52: the double keeps [n] binary
    digits after the point, and [2^n] exceeds the divisor, so the double
    never reaches the next half-integer. *)
Lemma nearest_round (a b : Z) :
  0 < a < 2 ^ 52 -> 0 < b < 2 ^ 52 ->
  Math_round (Binary64.nearest a b) = (2 * a + b) / (2 * b).
Proof.
  intros Ha Hb. unfold Binary64.nearest, Binary64.ilog2.
  pose proof (ilog2_spec a b ltac:(lia) ltac:(lia)) as (Hl & Hlo & Hhi).
  cbv zeta in Hl, Hlo, Hhi.
  set (k := Z.log2 b + 1) in *. set (l := Z.log2 (a * 2 ^ k / b)) in *.
  assert (Hk : 0 < k <= 52).
  { pose proof (Z.log2_nonneg b).
    assert (Z.log2 b < 52) by (apply Z.log2_lt_pow2; lia). lia. }
  assert (Hlk : l < 52 + k).
  { apply (Z.pow_lt_mono_r_iff 2); [lia | lia|].
    rewrite Z.pow_add_r by lia.
    assert (0 < 2 ^ k) by (apply Z.pow_pos_nonneg; lia).
    assert (0 < 2 ^ l) by (apply Z.pow_pos_nonneg; lia).
    nia. }
  rewrite Z.max_l by lia.
  destruct (Z.leb_spec 0 (l - k - 52)); [lia|].
  set (n := - (l - k - 52)).
  assert (Hn : 1 <= n) by lia.
  set (s := 2 ^ n).
  assert (Hs2 : s = 2 * 2 ^ (n - 1)).
  { unfold s. rewrite <- Z.pow_succ_r by lia. f_equal. lia. }
  assert (Hh : 0 < 2 ^ (n - 1)) by (apply Z.pow_pos_nonneg; lia).
  set (h := 2 ^ (n - 1)) in *.
  assert (Hsb : b * 2 ^ 52 <= a * s).
  { assert (E : s * 2 ^ l = 2 ^ k * 2 ^ 52).
    { unfold s. rewrite <- !Z.pow_add_r by lia. f_equal. lia. }
    assert (0 < 2 ^ l) by (apply Z.pow_pos_nonneg; lia).
    apply (Z.mul_le_mono_pos_r _ _ (2 ^ l)); [assumption|].
    replace (a * s * 2 ^ l) with (a * 2 ^ k * 2 ^ 52)
      by (rewrite <- Z.mul_assoc, <- E; ring).
    nia. }
  assert (Hbs : b < s) by nia.
  rewrite (Math_round_comp _ _ (Qred_correct _)).
  rewrite Math_round_Qmake by lia. fold s.
  set (m := Binary64.rne_div (a * s) b).
  pose proof (rne_div_bounds (a * s) b) as Hm. fold m in Hm.
  pose proof (rne_div_down (a * s) b) as Hd. fold m in Hd.
  pose proof (Z.div_mod (a * s) b ltac:(lia)) as Eq.
  pose proof (Z.mod_pos_bound (a * s) b ltac:(lia)) as Hr.
  set (q0 := a * s / b) in *. set (r := (a * s) mod b) in *.
  pose proof (Z.div_mod (2 * a + b) (2 * b) ltac:(lia)) as Ek.
  pose proof (Z.mod_pos_bound (2 * a + b) (2 * b) ltac:(lia)) as Hrk.
  set (kk := (2 * a + b) / (2 * b)) in *. set (rk := (2 * a + b) mod (2 * b)) in *.
  assert (Hlow : (2 * kk - 1) * h <= m).
  { assert ((2 * kk - 1) * h < q0 + 1); [|lia].
    apply (Z.mul_lt_mono_pos_l b); [lia|]. nia. }
  assert (Hup : m < (2 * kk + 1) * h).
  { assert (Has : a * s <= (2 * kk + 1) * h * b - h) by nia.
    assert (Hq0 : q0 < (2 * kk + 1) * h).
    { apply (Z.mul_lt_mono_pos_l b); [lia|]. nia. }
    destruct (Z.eq_dec q0 ((2 * kk + 1) * h - 1)) as [E|]; [|lia].
    rewrite Hd; [lia|]. nia. }
  symmetry. apply (Z.div_unique _ _ _ (2 * m + s - 2 * s * kk)); nia.
Qed.

(** The double nearest to a rational depends on its value only. *)
Lemma fl64_comp (x y : Q) : (x == y)%Q -> Binary64.fl64 x = Binary64.fl64 y.
Proof. intros H. unfold Binary64.fl64. rewrite (Qred_complete x y H). reflexivity. Qed.

Lemma Qred_inject_Z (z : Z) : Qred (inject_Z z) = inject_Z z.
Proof.
  pose proof (Qred_correct (inject_Z z)) as E.
  pose proof (gcd_Qred (inject_Z z)) as G.
  destruct (Qred (inject_Z z)) as [n d]. unfold Qeq, inject_Z in *. cbn [Qnum Qden] in *.
  assert (D : Z.pos d = 1).
  { rewrite Z.mul_1_r in E.
    rewrite E, Z.gcd_comm, (Z.mul_comm z), Z.gcd_mul_diag_l in G by lia.
    exact G. }
  injection D as ->. f_equal. lia.
Qed.

(** A fraction in lowest terms has the smaller numerator and denominator. *)
Lemma Qred_bounds (x : Q) (p q : Z) :
  0 <= p -> 0 < q -> (x == js_div p q)%Q ->
  0 <= Qnum (Qred x) <= p /\ Z.pos (Qden (Qred x)) <= q.
Proof.
  intros Hp Hq E.
  pose proof (gcd_Qred x) as G.
  assert (E' : (Qred x == p # Z.to_pos q)%Q).
  { rewrite Qred_correct, E. unfold js_div.
    rewrite (Qmake_Qdiv p (Z.to_pos q)), Z2Pos.id by assumption. reflexivity. }
  destruct (Qred x) as [n d]. unfold Qeq in E'. cbn [Qnum Qden] in *.
  rewrite Z2Pos.id in E' by assumption.
  assert (D : (Z.pos d | q)).
  { apply (Z.gauss _ n); [|rewrite Z.gcd_comm; exact G].
    exists p. lia. }
  apply Z.divide_pos_le in D; [|assumption].
  split; [|exact D]. nia.
Qed.

(** The integers below 2^53 are doubles. *)
Lemma nearest_int (z : Z) :
  0 < z < 2 ^ 53 -> Binary64.nearest z 1 = inject_Z z.
Proof.
  intros Hz. unfold Binary64.nearest, Binary64.ilog2.
  change (Z.log2 1 + 1) with 1. change (2 ^ 1) with 2.
  rewrite Z.div_1_r, (Z.mul_comm z 2), Z.log2_double by lia.
  assert (Hl : Z.log2 z < 53) by (apply Z.log2_lt_pow2; lia).
  pose proof (Z.log2_nonneg z).
  replace (Z.succ (Z.log2 z) - 1) with (Z.log2 z) by lia.
  rewrite Z.max_l by lia.
  destruct (Z.leb_spec 0 (Z.log2 z - 52)).
  - replace (Z.log2 z - 52) with 0 by lia. change (2 ^ 0) with 1.
    rewrite !Z.mul_1_r. rewrite <- (Z.mul_1_r z) at 1.
    rewrite rne_div_exact by lia. reflexivity.
  - set (n := - (Z.log2 z - 52)).
    assert (Hs : 0 < 2 ^ n) by (apply Z.pow_pos_nonneg; lia).
    rewrite <- (Z.mul_1_r (z * 2 ^ n)).
    rewrite rne_div_exact by lia.
    rewrite <- Qred_inject_Z. apply Qred_complete.
    unfold Qeq, inject_Z. cbn [Qnum Qden]. rewrite Z2Pos.id by lia. ring.
Qed.

Lemma fl64_int (z : Z) :
  0 <= z < 2 ^ 53 -> Binary64.fl64 (inject_Z z) = inject_Z z.
Proof.
  intros Hz. unfold Binary64.fl64. rewrite Qred_inject_Z.
  destruct z as [|p|p]; cbn [inject_Z Qnum Qden]; [reflexivity | | lia].
  apply nearest_int. lia.
Qed.

Lemma binary64_mul_int (x y : Z) :
  0 <= x * y < 2 ^ 53 ->
  Binary64.mul (inject_Z x) (inject_Z y) = inject_Z (x * y).
Proof.
  intros H. unfold Binary64.mul.
  rewrite (fl64_comp _ (inject_Z (x * y))) by (rewrite inject_Z_mult; reflexivity).
  apply fl64_int, H.
Qed.

Lemma binary64_int_exact (z : Z) : 0 <= z < 2 ^ 53 -> Binary64.int z = z.
Proof.
  intros H. unfold Binary64.int. rewrite fl64_int by assumption. apply Qfloor_Z.
Qed.

(** [Math.round] of the machine's quotient is [Math.round] of the exact
    quotient, for a dividend and a divisor below 2^52. *)
Lemma fl64_round (p q : Z) :
  0 <= p < 2 ^ 52 -> 0 < q -> p = 0 \/ q < 2 ^ 52 ->
  Math_round (Binary64.div (inject_Z p) (inject_Z q)) = Math_round (js_div p q).
Proof.
  intros Hp Hq Hb. unfold Binary64.div. fold (js_div p q).
  pose proof (Qred_bounds (js_div p q) p q ltac:(lia) Hq ltac:(reflexivity)) as [Bn Bd].
  pose proof (Qred_correct (js_div p q)) as E.
  unfold Binary64.fl64.
  destruct (Qred (js_div p q)) as [n d]. cbn [Qnum Qden] in *.
  destruct n as [|a|a]; [| |lia].
  - apply Math_round_comp. rewrite <- E. reflexivity.
  - rewrite nearest_round by lia.
    rewrite <- (Math_round_comp _ _ E).
    rewrite <- (Pos2Z.id d) at 3. rewrite Math_round_Qmake by lia. reflexivity.
Qed.



(** ** The Rational Reducer *)

Lemma gcd_loop_abs (a b : Z) : Z.abs (gcd_loop a b) = Z.gcd a b.
Proof.
  funelim (gcd_loop a b).
  - subst. rewrite Z.gcd_0_r. reflexivity.
  - match goal with IH : Z.abs _ = Z.gcd _ _ |- _ => rewrite IH end.
    rewrite Z.gcd_comm, Z.gcd_rem by assumption. apply Z.gcd_comm.
Qed.

Lemma gcd_loop_nonneg (a b : Z) : 0 <= a -> 0 <= b -> 0 <= gcd_loop a b.
Proof.
  funelim (gcd_loop a b); intros Ha Hb.
  - assumption.
  - match goal with IH : _ -> _ -> 0 <= _ |- _ => apply IH end.
    + assumption.
    + apply Z.rem_nonneg; assumption.
Qed.

Lemma gcd_loop_nonneg_eq (a b : Z) :
  0 <= a -> 0 <= b -> gcd_loop a b = Z.gcd a b.
Proof.
  intros Ha Hb. rewrite <- gcd_loop_abs.
  symmetry. apply Z.abs_eq. apply gcd_loop_nonneg; assumption.
Qed.

Lemma gcd_loop_divides (a b : Z) : (gcd_loop a b | a) /\ (gcd_loop a b | b).
Proof.
  split; apply Z.divide_abs_l; rewrite gcd_loop_abs.
  - apply Z.gcd_divide_l.
  - apply Z.gcd_divide_r.
Qed.

Lemma gcd_loop_zero (a b : Z) : gcd_loop a b = 0 <-> a = 0 /\ b = 0.
Proof.
  rewrite <- Z.abs_0_iff, gcd_loop_abs. apply Z.gcd_eq_0.
Qed.

Lemma gcdZ_loop (a b : Z) : gcdZ a b = gcd_loop a b.
Proof. unfold gcdZ, gcd. rewrite !Math_round_inject_Z. reflexivity. Qed.

(** ** The even-distribution generator *)

Lemma counts_loop_lt ts tr row placed :
  row < tr ->
  Counts.loop ts tr row placed =
    (expected ts tr (row + 1) - placed)
      :: Counts.loop ts tr (row + 1) (expected ts tr (row + 1)).
Proof.
  intros H. etransitivity; [apply Counts.loop_equation_1|].
  destruct (Z_lt_dec row tr); [reflexivity | lia].
Qed.

Lemma counts_loop_ge ts tr row placed :
  tr <= row -> Counts.loop ts tr row placed = [].
Proof.
  intros H. etransitivity; [apply Counts.loop_equation_1|].
  destruct (Z_lt_dec row tr); [lia | reflexivity].
Qed.

Lemma flags_loop_lt ts tr row placed :
  row < tr ->
  Flags.loop ts tr row placed =
    if expected ts tr (row + 1) >? placed
    then true :: Flags.loop ts tr (row + 1) (placed + 1)
    else false :: Flags.loop ts tr (row + 1) placed.
Proof.
  intros H. etransitivity; [apply Flags.loop_equation_1|].
  destruct (Z_lt_dec row tr); [reflexivity | lia].
Qed.

Lemma flags_loop_ge ts tr row placed :
  tr <= row -> Flags.loop ts tr row placed = [].
Proof.
  intros H. etransitivity; [apply Flags.loop_equation_1|].
  destruct (Z_lt_dec row tr); [lia | reflexivity].
Qed.

(** The cumulative target in integer arithmetic. *)
Lemma expected_div ts tr i :
  0 < tr -> expected ts tr i = (2 * (i * ts) + tr) / (2 * tr).
Proof. intros H. unfold expected. apply Math_round_js_div, H. Qed.

Lemma expected_0 ts tr : 0 < tr -> expected ts tr 0 = 0.
Proof.
  intros H. rewrite expected_div by assumption.
  apply Z.div_small. lia.
Qed.

Lemma expected_full ts tr : 0 < tr -> expected ts tr tr = ts.
Proof.
  intros H. rewrite expected_div by assumption.
  replace (2 * (tr * ts) + tr) with (ts * (2 * tr) + tr) by ring.
  rewrite Z.div_add_l by lia. rewrite Z.div_small by lia. lia.
Qed.

(** Every entry is the quotient [ts / tr] or one more. *)
Lemma entry_bounds ts tr i :
  0 < tr -> ts / tr <= entry ts tr i <= ts / tr + 1.
Proof.
  intros H. unfold entry. rewrite !expected_div by assumption.
  pose proof (Z.div_mod ts tr ltac:(lia)) as E.
  pose proof (Z.mod_pos_bound ts tr H) as B.
  set (q := ts / tr) in *. set (r := ts mod tr) in *.
  replace (2 * ((i + 1) * ts) + tr)
    with ((2 * (i * ts) + tr + 2 * r) + q * (2 * tr)) by lia.
  rewrite Z.div_add by lia.
  set (a := 2 * (i * ts) + tr).
  assert (a / (2 * tr) <= (a + 2 * r) / (2 * tr)).
  { apply Z.div_le_mono; lia. }
  assert ((a + 2 * r) / (2 * tr) <= (a + 1 * (2 * tr)) / (2 * tr)).
  { apply Z.div_le_mono; lia. }
  rewrite Z.div_add in * by lia. lia.
Qed.

Lemma sum_counts_loop ts tr row placed :
  sum (Counts.loop ts tr row placed) =
    if row <? tr then expected ts tr tr - placed else 0.
Proof.
  funelim (Counts.loop ts tr row placed).
  - destruct (Z.ltb_spec row totalRows) as [_|]; [|lia].
    simpl. fold (expected totalStitches totalRows (row + 1)) in *.
    match goal with IH : sum _ = _ |- _ => rewrite IH end.
    destruct (Z.ltb_spec (row + 1) totalRows) as [|Hge].
    + lia.
    + assert (expected totalStitches totalRows (row + 1)
              = expected totalStitches totalRows totalRows) by (f_equal; lia).
      lia.
  - destruct (Z.ltb_spec row totalRows); [lia | reflexivity].
Qed.

(** The generator's result, entry by entry. *)
Lemma counts_loop_entries ts tr (n : nat) : forall row,
  0 < tr -> Z.to_nat (tr - row) = n ->
  Counts.loop ts tr row (expected ts tr row) =
    map (fun k => entry ts tr (row + Z.of_nat k)) (seq 0 n).
Proof.
  induction n as [|n IH]; intros row Htr Hn.
  - apply counts_loop_ge. lia.
  - rewrite counts_loop_lt by lia.
    rewrite IH by lia.
    cbn [seq map]. rewrite <- seq_shift, map_map.
    f_equal.
    + change (Z.of_nat 0) with 0. rewrite Z.add_0_r. reflexivity.
    + apply map_ext. intros k. f_equal. lia.
Qed.

Lemma generate_entries ts tr :
  0 < tr ->
  Counts.generateEvenDistribution ts tr =
    map (fun k => entry ts tr (Z.of_nat k)) (seq 0 (Z.to_nat tr)).
Proof.
  intros Htr. unfold Counts.generateEvenDistribution.
  rewrite <- (expected_0 ts tr Htr) at 2.
  rewrite (counts_loop_entries ts tr (Z.to_nat tr)) by (assumption || lia).
  apply map_ext. intros k. f_equal.
Qed.

Lemma generate_length ts tr :
  0 < tr -> List.length (Counts.generateEvenDistribution ts tr) = Z.to_nat tr.
Proof.
  intros H. rewrite generate_entries by assumption.
  rewrite length_map, length_seq. reflexivity.
Qed.

Lemma generate_bounds ts tr :
  0 < tr ->
  Forall (fun e => ts / tr <= e <= ts / tr + 1)
         (Counts.generateEvenDistribution ts tr).
Proof.
  intros H. rewrite generate_entries by assumption.
  apply Forall_map, Forall_forall. intros k _. apply entry_bounds, H.
Qed.

Lemma extremes_bounded (lo hi : Z) (l : list Z) :
  l <> [] -> Forall (fun e => lo <= e <= hi) l ->
  lo <= minimum l /\ maximum l <= hi.
Proof.
  intros Hne Hall. unfold minimum, maximum.
  destruct l as [|x l]; [congruence|]. cbn [hd].
  assert (Hx : lo <= x <= hi) by (inversion Hall; assumption).
  clear Hne. induction Hall as [|y l' Hy _ IH]; simpl.
  - lia.
  - lia.
Qed.

(** Reducing both counts by a common factor leaves the targets alone, and
    a whole cycle later the target has grown by the cycle's count. *)
Lemma expected_reduce g ci cs i :
  0 < g -> 0 < cs -> expected (g * ci) (g * cs) i = expected ci cs i.
Proof.
  intros Hg Hcs. rewrite !expected_div by nia.
  replace (2 * (i * (g * ci)) + g * cs) with (g * (2 * (i * ci) + cs)) by ring.
  replace (2 * (g * cs)) with (g * (2 * cs)) by ring.
  apply Z.div_mul_cancel_l; lia.
Qed.

Lemma expected_shift ci cs k j :
  0 < cs -> expected ci cs (k * cs + j) = expected ci cs j + k * ci.
Proof.
  intros Hcs. rewrite !expected_div by assumption.
  replace (2 * ((k * cs + j) * ci) + cs)
    with ((2 * (j * ci) + cs) + (k * ci) * (2 * cs)) by ring.
  apply Z.div_add. lia.
Qed.

Lemma entry_cycle g ci cs k j :
  0 < g -> 0 < cs -> entry (g * ci) (g * cs) (k * cs + j) = entry ci cs j.
Proof.
  intros Hg Hcs. unfold entry.
  rewrite !expected_reduce by assumption.
  replace (k * cs + j + 1) with (k * cs + (j + 1)) by ring.
  rewrite !expected_shift by assumption. ring.
Qed.

Lemma map_seq_period {A} (p : nat) (f : nat -> A) :
  (forall k j, f (k * p + j)%nat = f j) ->
  forall m s, map f (seq (s + p) m) = map f (seq s m).
Proof.
  intros Hf. induction m as [|m IH]; intros s.
  - reflexivity.
  - cbn [seq map]. f_equal.
    + rewrite Nat.add_comm, <- (Nat.mul_1_l p) at 1. apply Hf.
    + apply (IH (S s)).
Qed.

Lemma map_seq_periodic {A} (p n : nat) (f : nat -> A) :
  (forall k j, f (k * p + j)%nat = f j) ->
  map f (seq 0 (n * p)) = repeat_seq (map f (seq 0 p)) n.
Proof.
  intros Hf. induction n as [|n IH].
  - reflexivity.
  - cbn [Nat.mul repeat_seq]. rewrite seq_app, map_app. f_equal.
    rewrite map_seq_period by assumption. exact IH.
Qed.

(** ** The repeat-cycle reducer *)

Lemma gcdZ_nonneg_eq (a b : Z) : 0 <= a -> 0 <= b -> gcdZ a b = Z.gcd a b.
Proof. intros Ha Hb. rewrite gcdZ_loop. apply gcd_loop_nonneg_eq; assumption. Qed.

Lemma gcd_positive (a b : Z) : a <> 0 \/ b <> 0 -> 0 < Z.gcd a b.
Proof.
  intros H. pose proof (Z.gcd_nonneg a b).
  destruct (Z.eq_dec (Z.gcd a b) 0) as [E|]; [|lia].
  apply Z.gcd_eq_0 in E. lia.
Qed.

Lemma div_exact_divisor (g a : Z) : 0 < g -> (g | a) -> a = g * (a / g).
Proof. intros Hg Hd. apply Znumtheory.Zdivide_Zdiv_eq; assumption. Qed.

Lemma counts_findMinimalRepeat_value (ts tr : Z) :
  value (Counts.findMinimalRepeat ts tr) =
    let g := gcdZ ts tr in
    let pattern := Counts.generate_num (js_quot ts g) (js_quot tr g) in
    {| Counts.cycleStitches := js_quot ts g;
       Counts.cycleRows := js_quot tr g;
       Counts.repeats := g;
       Counts.pattern := pattern;
       Counts.sequences := sequences_of Z.eqb pattern;
       Counts.description := Counts.describe (sequences_of Z.eqb pattern) |}.
Proof. reflexivity. Qed.

Lemma js_quot_nonzero (x g : Z) : g <> 0 -> js_quot x g = Some (x / g).
Proof.
  intros H. unfold js_quot. destruct (Z.eqb_spec g 0); [contradiction | reflexivity].
Qed.

Lemma sum_generate (items slots : Z) :
  0 < slots -> sum (Counts.generateEvenDistribution items slots) = items.
Proof.
  intros Hslots. unfold Counts.generateEvenDistribution.
  rewrite sum_counts_loop.
  destruct (Z.ltb_spec 0 slots); [|lia].
  rewrite expected_full by assumption. lia.
Qed.

(** ** The boolean generator *)

Lemma expected_diagonal n i : 0 < n -> expected n n i = i.
Proof.
  intros H. rewrite expected_div by assumption.
  replace (2 * (i * n) + n) with (i * (2 * n) + n) by ring.
  rewrite Z.div_add_l by lia. rewrite Z.div_small by lia. lia.
Qed.

(** With no more stitches than rows an entry is 0 or 1. *)
Lemma entry_0_1 ts tr i :
  0 < tr -> 0 <= ts <= tr -> 0 <= entry ts tr i <= 1.
Proof.
  intros Htr Hts. destruct (Z.eq_dec ts tr) as [->|Hne].
  - unfold entry. rewrite !expected_diagonal by assumption. lia.
  - pose proof (entry_bounds ts tr i Htr) as B.
    rewrite Z.div_small in B by lia. exact B.
Qed.

Lemma flags_loop_counts ts tr (n : nat) : forall row,
  0 < tr -> 0 <= ts <= tr -> Z.to_nat (tr - row) = n ->
  map count_of_flag (Flags.loop ts tr row (expected ts tr row)) =
    Counts.loop ts tr row (expected ts tr row).
Proof.
  induction n as [|n IH]; intros row Htr Hts Hn.
  - rewrite flags_loop_ge, counts_loop_ge by lia. reflexivity.
  - rewrite flags_loop_lt, counts_loop_lt by lia.
    pose proof (entry_0_1 ts tr row Htr Hts) as B. unfold entry in B.
    destruct (Z.gtb_spec (expected ts tr (row + 1)) (expected ts tr row)) as [G|G];
      cbn [map count_of_flag].
    + replace (expected ts tr row + 1) with (expected ts tr (row + 1)) by lia.
      rewrite IH by lia. f_equal. lia.
    + replace (expected ts tr row) with (expected ts tr (row + 1)) at 1 by lia.
      rewrite IH by lia. f_equal. lia.
Qed.

Lemma flags_loop_length ts tr (n : nat) : forall row placed,
  Z.to_nat (tr - row) = n -> List.length (Flags.loop ts tr row placed) = n.
Proof.
  induction n as [|n IH]; intros row placed Hn.
  - rewrite flags_loop_ge by lia. reflexivity.
  - rewrite flags_loop_lt by lia.
    destruct (expected ts tr (row + 1) >? placed); cbn [List.length];
      rewrite IH by lia; reflexivity.
Qed.

Lemma sum_flags (l : list bool) : sum (map count_of_flag l) = pickups l.
Proof.
  unfold pickups. induction l as [|b l IH].
  - reflexivity.
  - cbn [map sum fold_right filter]. fold (sum (map count_of_flag l)).
    rewrite IH. destruct b; cbn [count_of_flag List.length]; lia.
Qed.


Lemma expected_ge_index ts tr i :
  0 < tr -> tr <= ts -> 0 <= i -> i <= expected ts tr i.
Proof.
  intros Htr Hts Hi. rewrite expected_div by assumption.
  apply Z.div_le_lower_bound; [lia | nia].
Qed.

Lemma flags_loop_full ts tr (n : nat) : forall row,
  0 < tr -> tr <= ts -> 0 <= row -> Z.to_nat (tr - row) = n ->
  Flags.loop ts tr row row = repeat true n.
Proof.
  induction n as [|n IH]; intros row Htr Hts Hrow Hn.
  - rewrite flags_loop_ge by lia. reflexivity.
  - rewrite flags_loop_lt by lia.
    pose proof (expected_ge_index ts tr (row + 1) Htr Hts ltac:(lia)) as G.
    destruct (Z.gtb_spec (expected ts tr (row + 1)) row); [|lia].
    cbn [repeat]. rewrite IH by lia. reflexivity.
Qed.

Lemma pickups_repeat_true (n : nat) : pickups (repeat true n) = Z.of_nat n.
Proof.
  unfold pickups. induction n as [|n IH]; cbn [repeat filter List.length].
  - reflexivity.
  - lia.
Qed.

(** ** The generator in double precision *)

Lemma doubles_loop_lt ts tr row placed :
  row < tr ->
  Doubles.loop ts tr row placed =
    let expectedStitches :=
      Math_round
        (Binary64.div (Binary64.mul (inject_Z (row + 1)) (inject_Z ts)) (inject_Z tr)) in
    Binary64.int (expectedStitches - placed)
      :: Doubles.loop ts tr (row + 1) expectedStitches.
Proof.
  intros H. etransitivity; [apply Doubles.loop_equation_1|].
  destruct (Z_lt_dec row tr); [reflexivity | lia].
Qed.

Lemma doubles_loop_ge ts tr row placed :
  tr <= row -> Doubles.loop ts tr row placed = [].
Proof.
  intros H. etransitivity; [apply Doubles.loop_equation_1|].
  destruct (Z_lt_dec row tr); [lia | reflexivity].
Qed.

(** Within the range the machine's cumulative target is the exact one. *)
Lemma doubles_expected ts tr i :
  0 <= ts -> 0 < tr -> in_exact_range ts tr -> 0 <= i <= tr ->
  Math_round (Binary64.div (Binary64.mul (inject_Z i) (inject_Z ts)) (inject_Z tr))
    = expected ts tr i.
Proof.
  unfold in_exact_range. intros Hts Htr R Hi.
  assert (P : 0 <= i * ts < 2 ^ 52) by nia.
  rewrite binary64_mul_int by lia.
  apply fl64_round; [exact P | exact Htr |].
  destruct (Z.eq_dec ts 0) as [->|]; [left; lia | right; nia].
Qed.

Lemma doubles_loop_exact ts tr (n : nat) : forall row,
  0 <= ts -> 0 < tr -> in_exact_range ts tr -> 0 <= row ->
  Z.to_nat (tr - row) = n ->
  Doubles.loop ts tr row (expected ts tr row)
    = Counts.loop ts tr row (expected ts tr row).
Proof.
  induction n as [|n IH]; intros row Hts Htr R Hrow Hn.
  - rewrite doubles_loop_ge, counts_loop_ge by lia. reflexivity.
  - rewrite doubles_loop_lt, counts_loop_lt by lia. cbv zeta.
    rewrite doubles_expected by (assumption || lia).
    rewrite IH by (assumption || lia). f_equal.
    apply binary64_int_exact.
    pose proof (entry_bounds ts tr row Htr) as B. unfold entry in B.
    pose proof (Z.div_pos ts tr Hts Htr).
    assert (ts / tr <= ts) by (apply Z.div_le_upper_bound; nia).
    unfold in_exact_range in R. nia.
Qed.

(** Within the range the two models of the generator agree. *)
Lemma doubles_generate_exact (items slots : Z) :
  0 <= items -> 0 < slots -> in_exact_range items slots ->
  Doubles.generateEvenDistribution items slots
    = Counts.generateEvenDistribution items slots.
Proof.
  intros Hi Hs R.
  unfold Doubles.generateEvenDistribution, Counts.generateEvenDistribution.
  pose proof (doubles_loop_exact items slots (Z.to_nat slots) 0 Hi Hs R
                ltac:(lia) (f_equal Z.to_nat (Z.sub_0_r slots))) as E.
  rewrite expected_0 in E by assumption. exact E.
Qed.

(** Beyond the range they differ: the machine's third target for
    [(3194649683606489, 3)] is one too large. *)
Lemma doubles_differ_beyond_range :
  Counts.generateEvenDistribution 3194649683606489 3
    = [1064883227868830; 1064883227868829; 1064883227868830] /\
  Doubles.generateEvenDistribution 3194649683606489 3
    = [1064883227868830; 1064883227868829; 1064883227868831].
Proof. vm_compute. split; reflexivity. Qed.

(** The range is kept by the reduced pair. *)
Lemma exact_range_reduced (g ci cs : Z) :
  0 < g -> 0 <= ci -> 0 < cs ->
  in_exact_range (g * ci) (g * cs) -> in_exact_range ci cs.
Proof. unfold in_exact_range. intros Hg Hci Hcs R. nia. Qed.

(** A distribution is its reduced cycle, written out once per repeat. *)
Lemma generate_cycle (g ci cs : Z) :
  0 < g -> 0 < cs ->
  Counts.generateEvenDistribution (g * ci) (g * cs)
    = repeat_seq (Counts.generateEvenDistribution ci cs) (Z.to_nat g).
Proof.
  intros Hg Hcs.
  rewrite !generate_entries by nia.
  rewrite Z2Nat.inj_mul by lia.
  rewrite (map_seq_periodic (Z.to_nat cs) (Z.to_nat g)).
  - f_equal. apply map_ext. intros k.
    apply (entry_cycle g ci cs 0 (Z.of_nat k)); assumption.
  - intros k j.
    replace (Z.of_nat (k * Z.to_nat cs + j)) with (Z.of_nat k * cs + Z.of_nat j) by lia.
    rewrite entry_cycle by assumption.
    symmetry. apply (entry_cycle g ci cs 0 (Z.of_nat j)); assumption.
Qed.

(** The boolean generator places one stitch per row at most. *)
Lemma flags_pickups_min (items slots : Z) :
  0 <= items -> 0 < slots ->
  pickups (Flags.generateEvenDistribution items slots) = Z.min items slots.
Proof.
  intros Hi Hs. unfold Flags.generateEvenDistribution.
  destruct (Z_le_gt_dec slots items) as [H|H].
  - rewrite (flags_loop_full items slots (Z.to_nat slots)) by lia.
    rewrite pickups_repeat_true. lia.
  - rewrite <- sum_flags.
    pose proof (flags_loop_counts items slots (Z.to_nat slots) 0 Hs
                  ltac:(lia) (f_equal Z.to_nat (Z.sub_0_r slots))) as E.
    rewrite expected_0 in E by assumption. rewrite E.
    fold (Counts.generateEvenDistribution items slots).
    rewrite sum_generate by assumption. lia.
Qed.

(** ** The claims on the generator and the reducer *)

(** C1, as amended.  Conservation, for counts in the range of exact
    rounding ([slots * (items + 1) < 2^52]): with [items >= 0] and
    [slots > 0] the entries of the integer-count
    [generateEvenDistribution(items, slots)] add up to [items].  The
    boolean [generateEvenDistribution] places one stitch per row at most:
    its [true] entries number [min(items, slots)], which is [items] when
    [items <= slots]. *)
Theorem conservation (items slots : Z) :
  0 <= items -> 0 < slots -> in_exact_range items slots ->
  sum (Doubles.generateEvenDistribution items slots) = items /\
  pickups (Flags.generateEvenDistribution items slots) = Z.min items slots.
Proof.
  intros Hi Hs R. split.
  - (* in the range the doubles round as the exact quotients do *)
    rewrite doubles_generate_exact by assumption.
    (* the entries telescope to the last target, round(slots * items / slots) *)
    apply sum_generate, Hs.
  - apply flags_pickups_min; assumption.
Qed.

Lemma conservation_witness :
  sum (Doubles.generateEvenDistribution 7 3) = 7 /\
  pickups (Flags.generateEvenDistribution 7 3) = 3.
Proof.
  apply (conservation 7 3); [lia | lia | unfold in_exact_range; lia].
Defined.

(** C1, as stated, fails.  The boolean generator drops three of 5 stitches
    for 2 rows; and beyond the range the integer-count generator, with the
    rounding of doubles, places one stitch too many. *)
Lemma conservation_fails :
  (pickups (Flags.generateEvenDistribution 5 2) = 2 /\
   pickups (Flags.generateEvenDistribution 5 2) <> 5) /\
  (sum (Doubles.generateEvenDistribution 7796471958821802 3) = 7796471958821803 /\
   sum (Doubles.generateEvenDistribution 7796471958821802 3) <> 7796471958821802).
Proof. vm_compute. repeat split; discriminate. Qed.

(** C2, as amended.  Cycle invariant, for counts in the range of exact
    rounding: with [items >= 1] and [slots >= 1] the distribution of
    [(items, slots)] is the distribution of the reduced pair that
    [findMinimalRepeat] computes, written [repeats] times. *)
Theorem cycle_invariant (items slots : Z) :
  1 <= items -> 1 <= slots -> in_exact_range items slots ->
  let r := value (Counts.findMinimalRepeat items slots) in
  exists cycleItems cycleSlots : Z,
    Counts.cycleStitches r = Some cycleItems /\
    Counts.cycleRows r = Some cycleSlots /\
    Counts.pattern r = Doubles.generateEvenDistribution cycleItems cycleSlots /\
    Doubles.generateEvenDistribution items slots =
      repeat_seq (Doubles.generateEvenDistribution cycleItems cycleSlots)
                 (Z.to_nat (Counts.repeats r)).
Proof.
  intros Hi Hs R r. subst r. rewrite counts_findMinimalRepeat_value.
  rewrite gcdZ_nonneg_eq by lia.
  set (g := Z.gcd items slots).
  assert (Hg : 0 < g) by (apply gcd_positive; lia).
  assert (Ei : items = g * (items / g))
    by (apply div_exact_divisor; [assumption | apply Z.gcd_divide_l]).
  assert (Es : slots = g * (slots / g))
    by (apply div_exact_divisor; [assumption | apply Z.gcd_divide_r]).
  set (ci := items / g) in *. set (cs := slots / g) in *.
  assert (Hcs : 0 < cs) by nia.
  assert (Hci : 0 <= ci) by nia.
  assert (Rc : in_exact_range ci cs).
  { apply (exact_range_reduced g); try assumption. rewrite <- Ei, <- Es. exact R. }
  exists ci, cs. cbn zeta. cbn [Counts.cycleStitches Counts.cycleRows
    Counts.pattern Counts.repeats].
  rewrite !js_quot_nonzero by lia. fold ci cs.
  rewrite !doubles_generate_exact by (assumption || lia).
  repeat split.
  rewrite Ei, Es at 1. apply generate_cycle; assumption.
Qed.

Lemma cycle_invariant_witness :
  Doubles.generateEvenDistribution 6 16 =
    repeat_seq (Doubles.generateEvenDistribution 3 8) 2.
Proof.
  destruct (cycle_invariant 6 16) as (ci & cs & Hi & Hs & _ & H);
    [lia | lia | unfold in_exact_range; lia |].
  vm_compute in Hi, Hs. injection Hi as <-. injection Hs as <-. exact H.
Defined.

(** C2, as stated, fails beyond the range: the reducer takes
    [(6389299367212978, 6)] to the cycle [(3194649683606489, 3)], twice,
    and with the rounding of doubles the second half of the distribution
    is not the first. *)
Lemma cycle_invariant_fails :
  let r := value (Counts.findMinimalRepeat 6389299367212978 6) in
  Counts.cycleStitches r = Some 3194649683606489 /\
  Counts.cycleRows r = Some 3 /\
  Counts.repeats r = 2 /\
  Doubles.generateEvenDistribution 3194649683606489 3
    = [1064883227868830; 1064883227868829; 1064883227868831] /\
  Doubles.generateEvenDistribution 6389299367212978 6
    = [1064883227868830; 1064883227868829; 1064883227868831;
       1064883227868829; 1064883227868829; 1064883227868831] /\
  Doubles.generateEvenDistribution 6389299367212978 6
    <> repeat_seq (Doubles.generateEvenDistribution 3194649683606489 3) 2.
Proof. vm_compute. repeat split. discriminate. Qed.

(** C3, as amended.  Evenness, for counts in the range of exact rounding:
    with [items >= 0] and [slots > 0] the largest and the smallest entry of
    [generateEvenDistribution(items, slots)] differ by at most 1, also
    when [items > slots]. *)
Theorem evenness (items slots : Z) :
  0 <= items -> 0 < slots -> in_exact_range items slots ->
  maximum (Doubles.generateEvenDistribution items slots)
    - minimum (Doubles.generateEvenDistribution items slots) <= 1.
Proof.
  intros Hi Hs R. rewrite doubles_generate_exact by assumption.
  pose proof (generate_bounds items slots Hs) as B.
  apply extremes_bounded in B.
  - lia.
  - intros E. pose proof (generate_length items slots Hs) as L.
    rewrite E in L. simpl in L. lia.
Qed.

Lemma evenness_witness :
  maximum (Doubles.generateEvenDistribution 7 3)
    - minimum (Doubles.generateEvenDistribution 7 3) <= 1.
Proof.
  apply (evenness 7 3); [lia | lia | unfold in_exact_range; lia].
Defined.

(** C3, as stated, fails beyond the range: with the rounding of doubles
    the entries for [(3194649683606489, 3)] differ by 2. *)
Lemma evenness_fails :
  Doubles.generateEvenDistribution 3194649683606489 3
    = [1064883227868830; 1064883227868829; 1064883227868831] /\
  maximum (Doubles.generateEvenDistribution 3194649683606489 3)
    - minimum (Doubles.generateEvenDistribution 3194649683606489 3) = 2.
Proof. vm_compute. split; reflexivity. Qed.

(** C4, as amended. [generateEvenDistribution(3, 8)] by the cumulative
    rule: the targets after rows 1..8 are 0,1,1,2,2,2,3,3 (12/8 = 1.5
    rounds up to 2), and the result is [0,1,0,1,0,0,1,0]. *)
Theorem distribute_3_8 :
  map (expected 3 8) [1; 2; 3; 4; 5; 6; 7; 8] = [0; 1; 1; 2; 2; 2; 3; 3] /\
  Counts.generateEvenDistribution 3 8 = [0; 1; 0; 1; 0; 0; 1; 0].
Proof. split; vm_compute; reflexivity. Qed.

(** C4, as stated, fails: the result is not [0,1,0,0,1,0,0,1]. *)
Lemma spec_trace_3_8_fails :
  Counts.generateEvenDistribution 3 8 <> [0; 1; 0; 0; 1; 0; 0; 1].
Proof. vm_compute. discriminate. Qed.

(** C5. The reducer's contract: for [items >= 0] and [slots > 0],
    [findMinimalRepeat] returns [items / g], [slots / g] and [g] for
    [g = gcd(items, slots)], the greatest common divisor; the two
    quotients are exact and coprime; and [(6, 16)] gives 3, 8 and 2. *)
Theorem reduce_contract :
  (forall items slots : Z,
     0 <= items -> 0 < slots ->
     let r := value (Counts.findMinimalRepeat items slots) in
     let g := gcdZ items slots in
     g = Z.gcd items slots /\
     Counts.repeats r = g /\
     Counts.cycleStitches r = Some (items / g) /\
     Counts.cycleRows r = Some (slots / g) /\
     items = g * (items / g) /\ slots = g * (slots / g) /\
     Z.gcd (items / g) (slots / g) = 1) /\
  (let r := value (Counts.findMinimalRepeat 6 16) in
   Counts.cycleStitches r = Some 3 /\ Counts.cycleRows r = Some 8 /\
   Counts.repeats r = 2).
Proof.
  split.
  - intros items slots Hi Hs r g. subst r g.
    rewrite counts_findMinimalRepeat_value. cbn zeta.
    cbn [Counts.cycleStitches Counts.cycleRows Counts.repeats].
    rewrite gcdZ_nonneg_eq by lia.
    set (g := Z.gcd items slots).
    assert (Hg : 0 < g) by (apply gcd_positive; lia).
    rewrite !js_quot_nonzero by lia.
    repeat split.
    + apply div_exact_divisor; [assumption | apply Z.gcd_divide_l].
    + apply div_exact_divisor; [assumption | apply Z.gcd_divide_r].
    + apply Z.gcd_div_gcd; [lia | reflexivity].
  - vm_compute. repeat split.
Qed.

Lemma reduce_contract_witness :
  0 <= 10 /\ 0 < 25 /\
  Counts.cycleStitches (value (Counts.findMinimalRepeat 10 25)) = Some 2 /\
  Counts.cycleRows (value (Counts.findMinimalRepeat 10 25)) = Some 5 /\
  Counts.repeats (value (Counts.findMinimalRepeat 10 25)) = 5.
Proof.
  split; [lia | split; [lia |]].
  destruct (proj1 reduce_contract 10 25) as (_ & Hr & Hi & Hs & _); [lia | lia |].
  split; [exact Hi | split; [exact Hs | exact Hr]].
Defined.

(** ** The run scan *)

Section RunScan.

Context {A : Type} (eqb : A -> A -> bool).
Hypothesis eqb_eq : forall a b, eqb a b = true <-> a = b.


Lemma total_rows_cons {V} (r : Run V) (rs : list (Run V)) :
  total_rows (r :: rs) = run_rows r + total_rows rs.
Proof. reflexivity. Qed.


Lemma expand_all_cons {V} (r : Run V) (rs : list (Run V)) :
  expand_all (r :: rs) = expand r ++ expand_all rs.
Proof. reflexivity. Qed.




Lemma run_loop_positive (rest : list A) : forall cur n,
  1 <= n -> Forall (fun r => 1 <= run_rows r) (run_loop eqb rest cur n).
Proof.
  induction rest as [|x rest IH]; intros cur n Hn; cbn [run_loop map].
  - constructor; [exact Hn | constructor].
  - destruct (strict_eq eqb (Some x) cur).
    + apply IH. lia.
    + constructor; [exact Hn | apply IH; lia].
Qed.


Lemma run_scan_positive (d : list A) :
  Forall (fun r => 1 <= run_rows r) (run_scan eqb d).
Proof. apply run_loop_positive. lia. Qed.

End RunScan.

Lemma bool_eqb_eq (a b : bool) : Bool.eqb a b = true <-> a = b.
Proof. apply Bool.eqb_true_iff. Qed.

(** The runs that [describeDistribution] returns are the scan of the
    distribution it returns. *)
Lemma counts_describeDistribution_runs (totalStitches totalRows : Z) :
  let info := value (Counts.describeDistribution totalStitches totalRows) in
  Counts.distribution info
    = Counts.generateEvenDistribution totalStitches totalRows /\
  Counts.runs info = run_scan Z.eqb (Counts.distribution info).
Proof. split; reflexivity. Qed.

Lemma flags_describeDistribution_runs (totalStitches totalRows : Z) :
  let info := value (Flags.describeDistribution totalStitches totalRows) in
  Flags.distribution info
    = Flags.generateEvenDistribution totalStitches totalRows /\
  Flags.runs info = run_scan Bool.eqb (Flags.distribution info).
Proof. split; reflexivity. Qed.



(** ** The two revisions of the generator *)



(** ** The gcd contract *)

(** Whatever the signs, the magnitude of the loop's result is the greatest
    common divisor. *)
Lemma gcd_magnitude (a b : Q) :
  Z.abs (gcd a b) = Z.gcd (Math_round a) (Math_round b).
Proof. unfold gcd. apply gcd_loop_abs. Qed.

Lemma gcd_loop_0_r (a : Z) : gcd_loop a 0 = a.
Proof. funelim (gcd_loop a 0); [reflexivity | congruence]. Qed.

(** C9, as amended. [gcd(a, b)] rounds both inputs and runs Euclid's loop
    on them.  When the rounded values are not both 0, the magnitude of the
    result is their greatest common divisor: positive, dividing both,
    and no common divisor is larger.  When both rounded values are
    non-negative the result is that divisor itself.  [gcd(a, 0)] is [a]
    rounded. *)
Theorem gcd_contract (a b : Q) :
  Math_round a <> 0 \/ Math_round b <> 0 ->
  gcd a b = gcd_loop (Math_round a) (Math_round b) /\
  (0 < Z.abs (gcd a b) /\
   (Z.abs (gcd a b) | Math_round a) /\
   (Z.abs (gcd a b) | Math_round b) /\
   (forall d : Z, (d | Math_round a) -> (d | Math_round b) -> d <= Z.abs (gcd a b))) /\
  (0 <= Math_round a -> 0 <= Math_round b -> gcd a b = Z.abs (gcd a b)) /\
  gcd a 0 = Math_round a.
Proof.
  intros Hnz. split; [reflexivity|].
  assert (Hpos : 0 < Z.abs (gcd a b))
    by (rewrite gcd_magnitude; apply gcd_positive, Hnz).
  split; [|split].
  - split; [exact Hpos|]. rewrite gcd_magnitude in *.
    split; [apply Z.gcd_divide_l | split; [apply Z.gcd_divide_r |]].
    intros d Ha Hb. apply Z.divide_pos_le; [exact Hpos|].
    apply Z.gcd_greatest; assumption.
  - intros Ha Hb. symmetry. apply Z.abs_eq.
    unfold gcd. apply gcd_loop_nonneg; assumption.
  - unfold gcd. change (Math_round 0) with 0. apply gcd_loop_0_r.
Qed.

Lemma gcd_contract_witness :
  gcd (25 # 10) (11 # 2) = 3 /\ gcd (9 # 1) 0 = 9.
Proof.
  destruct (gcd_contract (25 # 10) (11 # 2)) as (_ & _ & H & _).
  { left. vm_compute. discriminate. }
  destruct (gcd_contract (9 # 1) 0) as (_ & _ & _ & H0).
  { left. vm_compute. discriminate. }
  split; [|exact H0].
  rewrite H by (vm_compute; discriminate).
  vm_compute. reflexivity.
Defined.

(** C9, as stated, fails: on a negative input the result is negative, so
    it is not the (positive) greatest common divisor; and [gcd(a, 0)] is
    [a] rounded, not [a]. *)
Lemma gcd_not_as_stated :
  gcd (-6 # 1) (4 # 1) = -2 /\
  ~ 0 < gcd (-6 # 1) (4 # 1) /\
  gcd (5 # 2) 0 = 3.
Proof. vm_compute. repeat split. discriminate. Qed.

(** ** The scan of [findMinimalRepeat] *)

Section SequenceScan.

Context {A : Type} (eqb : A -> A -> bool).
Hypothesis eqb_eq : forall a b, eqb a b = true <-> a = b.

(** The inner loop counts a block of [stitchCount] and stops at the first
    other entry. *)
Lemma count_run_block (stitchCount : A) (l : list A) : forall rows,
  exists k : nat,
    fst (count_run eqb stitchCount rows l) = rows + Z.of_nat k /\
    l = repeat stitchCount k ++ snd (count_run eqb stitchCount rows l) /\
    hd_error (snd (count_run eqb stitchCount rows l)) <> Some stitchCount.
Proof.
  induction l as [|x l IH]; intros rows; cbn [count_run].
  - exists 0%nat. cbn. repeat split; [lia | discriminate].
  - destruct (eqb x stitchCount) eqn:E.
    + apply eqb_eq in E. subst x.
      destruct (IH (rows + 1)) as (k & Hk & Hl & Hh).
      exists (S k). cbn [repeat app]. repeat split.
      * lia.
      * f_equal. exact Hl.
      * exact Hh.
    + exists 0%nat. cbn. repeat split; [lia |].
      intros [= ->]. assert (eqb stitchCount stitchCount = true) by (apply eqb_eq; reflexivity).
      congruence.
Qed.

Lemma sequences_of_head (l : list A) :
  hd_error (map run_value (sequences_of eqb l)) = hd_error l.
Proof. destruct l; simp sequences_of; reflexivity. Qed.

Lemma no_equal_neighbours_cons {V} (a : V) (l : list V) :
  hd_error l <> Some a -> no_equal_neighbours l -> no_equal_neighbours (a :: l).
Proof.
  destruct l as [|b l]; cbn; [auto|].
  intros H N. split; [|exact N]. intros ->. apply H. reflexivity.
Qed.

Lemma sequences_of_partitions (l : list A) :
  partitions (sequences_of eqb l) l /\
  Forall (fun s => 1 <= run_rows s) (sequences_of eqb l).
Proof.
  unfold partitions. funelim (sequences_of eqb l).
  - repeat split. constructor.
  - destruct (count_run_block stitchCount rest 1) as (k & Hk & Hl & Hh).
    match goal with
    | IH : _ /\ _ |- _ => destruct IH as ((H1 & H2 & H3) & H4)
    end.
    set (rest' := snd (count_run eqb stitchCount 1 rest)) in *.
    set (rows := fst (count_run eqb stitchCount 1 rest)) in *.
    split; [split; [|split]|].
    + pose proof (f_equal (@List.length A) Hl) as L.
      rewrite length_app, repeat_length in L.
      rewrite total_rows_cons, H1. cbn [run_rows List.length]. lia.
    + rewrite expand_all_cons, H2. unfold expand. cbn [run_value run_rows].
      rewrite Hk. replace (Z.to_nat (1 + Z.of_nat k)) with (S k) by lia.
      cbn [repeat app]. f_equal. symmetry. exact Hl.
    + cbn [map run_value]. apply no_equal_neighbours_cons; [|exact H3].
      rewrite sequences_of_head. exact Hh.
    + constructor; [cbn [run_rows]; lia | exact H4].
Qed.

(** On the entries read so far the first scan goes the way of the
    second. *)
Lemma run_loop_sequences (rest : list A) : forall x n,
  run_loop eqb rest (Some x) n =
    mkRun (Some x) (fst (count_run eqb x n rest))
      :: map read_run (sequences_of eqb (snd (count_run eqb x n rest))).
Proof.
  induction rest as [|y rest IH]; intros x n; cbn [run_loop count_run strict_eq].
  - simp sequences_of. reflexivity.
  - destruct (eqb y x).
    + apply IH.
    + cbn [fst snd]. simp sequences_of. cbn [map]. f_equal. apply IH.
Qed.

End SequenceScan.

(** ** The reduced cycle *)

(** The result of [findMinimalRepeat] on counts, spelled out. *)
Lemma counts_findMinimalRepeat_reduced (items slots : Z) :
  0 <= items -> 0 < slots ->
  let g := Z.gcd items slots in
  let pattern := Counts.generateEvenDistribution (items / g) (slots / g) in
  0 < g /\ 0 < slots / g /\
  items = g * (items / g) /\ slots = g * (slots / g) /\
  value (Counts.findMinimalRepeat items slots) =
    {| Counts.cycleStitches := Some (items / g);
       Counts.cycleRows := Some (slots / g);
       Counts.repeats := g;
       Counts.pattern := pattern;
       Counts.sequences := sequences_of Z.eqb pattern;
       Counts.description := Counts.describe (sequences_of Z.eqb pattern) |}.
Proof.
  intros Hi Hs g pattern. subst pattern.
  assert (Hg : 0 < g) by (apply gcd_positive; lia).
  assert (Ei : items = g * (items / g))
    by (apply div_exact_divisor; [assumption | apply Z.gcd_divide_l]).
  assert (Es : slots = g * (slots / g))
    by (apply div_exact_divisor; [assumption | apply Z.gcd_divide_r]).
  repeat split; try assumption; [nia|].
  rewrite counts_findMinimalRepeat_value. cbn zeta.
  rewrite gcdZ_nonneg_eq by lia. fold g.
  rewrite !js_quot_nonzero by lia. reflexivity.
Qed.

Lemma sum_repeat (v : Z) (n : nat) : sum (repeat v n) = v * Z.of_nat n.
Proof.
  induction n as [|n IH]; cbn [repeat].
  - cbn. lia.
  - change (sum (?a :: ?l)) with (a + sum l). rewrite IH. lia.
Qed.


(** A cycle that is a single run is a single row. *)
Lemma one_run_one_row (items slots : Z) (s : Run Z) :
  0 <= items -> 0 < slots ->
  Counts.sequences (value (Counts.findMinimalRepeat items slots)) = [s] ->
  run_rows s = 1 /\
  Counts.cycleRows (value (Counts.findMinimalRepeat items slots)) = Some 1 /\
  Counts.repeats (value (Counts.findMinimalRepeat items slots)) = slots /\
  items = run_value s * slots.
Proof.
  intros Hi Hs.
  destruct (counts_findMinimalRepeat_reduced items slots Hi Hs)
    as (Hg & Hcs & Ei & Es & ->).
  set (g := Z.gcd items slots) in *.
  set (ci := items / g) in *. set (cs := slots / g) in *.
  cbn [Counts.sequences Counts.cycleRows Counts.repeats]. intros Hseq.
  destruct (sequences_of_partitions Z.eqb Z.eqb_eq
              (Counts.generateEvenDistribution ci cs)) as ((T & X & _) & P).
  rewrite Hseq in T, X, P.
  rewrite total_rows_cons in T. rewrite expand_all_cons in X.
  change (total_rows (@nil (Run Z))) with 0 in T.
  change (expand_all (@nil (Run Z))) with (@nil Z) in X.
  rewrite app_nil_r in X. unfold expand in X.
  rewrite generate_length in T by assumption.
  pose proof (sum_generate ci cs Hcs) as S. rewrite <- X, sum_repeat in S.
  assert (Hrows : run_rows s = cs) by lia.
  rewrite Hrows, Z2Nat.id in S by lia.
  assert (C : Z.gcd ci cs = 1) by (apply Z.gcd_div_gcd; [lia | reflexivity]).
  assert (D : (cs | 1)).
  { rewrite <- C. apply Z.gcd_greatest; [|apply Z.divide_refl].
    exists (run_value s). lia. }
  apply Z.divide_1_r_nonneg in D; [|lia].
  rewrite Hrows, D in *. repeat split; nia.
Qed.

(** ** The text of a single run *)

Lemma counts_description_describe (ts tr : Z) :
  Counts.description (value (Counts.findMinimalRepeat ts tr)) =
    Counts.describe (Counts.sequences (value (Counts.findMinimalRepeat ts tr))).
Proof. reflexivity. Qed.

Lemma flags_description_describe (ts tr : Z) :
  Flags.description (value (Flags.findMinimalRepeat ts tr)) =
    Flags.describe (Flags.sequences (value (Flags.findMinimalRepeat ts tr))).
Proof. reflexivity. Qed.

(** As many stitches as rows: the cycle is one row with one stitch. *)
Lemma counts_findMinimalRepeat_diagonal (n : Z) :
  0 < n ->
  value (Counts.findMinimalRepeat n n) =
    {| Counts.cycleStitches := Some 1;
       Counts.cycleRows := Some 1;
       Counts.repeats := n;
       Counts.pattern := [1];
       Counts.sequences := [mkRun 1 1];
       Counts.description := "Pick up 1 from each of 1 row" |}.
Proof.
  intros H. rewrite counts_findMinimalRepeat_value. cbn zeta.
  rewrite gcdZ_nonneg_eq, Z.gcd_diag, Z.abs_eq by lia.
  rewrite js_quot_nonzero, Z.div_same by lia. reflexivity.
Qed.

Lemma flags_findMinimalRepeat_diagonal (n : Z) :
  0 < n ->
  value (Flags.findMinimalRepeat n n) =
    {| Flags.cycleStitches := Some 1;
       Flags.cycleRows := Some 1;
       Flags.repeats := n;
       Flags.pattern := [true];
       Flags.sequences := [mkRun true 1];
       Flags.description := "Pick up 1 in a row" |}.
Proof.
  intros H. unfold Flags.findMinimalRepeat, Flags.call_generate, value, bind, emit, ret.
  cbn [snd]. rewrite gcdZ_nonneg_eq, Z.gcd_diag, Z.abs_eq by lia.
  rewrite js_quot_nonzero, Z.div_same by lia. reflexivity.
Qed.

(** C7, as amended.  [findMinimalRepeat] renders the runs of one reduced
    cycle, not of the whole distribution.  In the integer-count revision a
    cycle that is a single run of value 1 and length [L] is rendered as
    "Pick up 1 from each of L row", with an "s" exactly when [L] is not 1.
    In the range of exact rounding such a cycle arises only for as many
    stitches as rows, and [L] is 1.  For as many stitches as rows,
    [(5, 5)] for one, the cycle is one row: the text is
    "Pick up 1 from each of 1 row", to be repeated once per row.  The
    boolean revision renders a single pick-up run as "Pick up L in a row":
    "Pick up 1 in a row" for [(5, 5)]. *)
Theorem single_run_text :
  (forall (totalStitches totalRows L : Z),
     Counts.sequences (value (Counts.findMinimalRepeat totalStitches totalRows))
       = [mkRun 1 L] ->
     Counts.description (value (Counts.findMinimalRepeat totalStitches totalRows))
       = ("Pick up 1 from each of " ++ string_of_Z L ++ " row"
            ++ (if L =? 1 then "" else "s")%Z)%string) /\
  (forall (items slots L : Z),
     0 <= items -> 0 < slots -> in_exact_range items slots ->
     Counts.sequences (value (Counts.findMinimalRepeat items slots))
       = [mkRun 1 L] ->
     L = 1 /\ items = slots) /\
  (forall n : Z,
     0 < n ->
     let r := value (Counts.findMinimalRepeat n n) in
     Counts.pattern r = [1] /\
     Counts.sequences r = [mkRun 1 1] /\
     Counts.description r = "Pick up 1 from each of 1 row"%string /\
     Counts.repeats r = n) /\
  (forall (totalStitches totalRows L : Z),
     Flags.sequences (value (Flags.findMinimalRepeat totalStitches totalRows))
       = [mkRun true L] ->
     Flags.description (value (Flags.findMinimalRepeat totalStitches totalRows))
       = ("Pick up " ++ string_of_Z L ++ " in a row")%string) /\
  (forall n : Z,
     0 < n ->
     let r := value (Flags.findMinimalRepeat n n) in
     Flags.pattern r = [true] /\
     Flags.sequences r = [mkRun true 1] /\
     Flags.description r = "Pick up 1 in a row"%string /\
     Flags.repeats r = n).
Proof.
  split; [|split; [|split; [|split]]].
  - intros ts tr L H. rewrite counts_description_describe, H. reflexivity.
  - intros items slots L Hi Hs _ H.
    destruct (one_run_one_row items slots (mkRun 1 L) Hi Hs H) as (HL & _ & _ & E).
    cbn [run_rows run_value] in HL, E. lia.
  - intros n Hn r. subst r. rewrite counts_findMinimalRepeat_diagonal by assumption.
    repeat split.
  - intros ts tr L H. rewrite flags_description_describe, H. reflexivity.
  - intros n Hn r. subst r. rewrite flags_findMinimalRepeat_diagonal by assumption.
    repeat split.
Qed.

Lemma single_run_text_witness :
  Counts.description (value (Counts.findMinimalRepeat 7 7))
    = "Pick up 1 from each of 1 row"%string /\
  Counts.repeats (value (Counts.findMinimalRepeat 5 5)) = 5 /\
  Flags.description (value (Flags.findMinimalRepeat 5 5))
    = "Pick up 1 in a row"%string.
Proof.
  split; [|split].
  - apply (proj1 single_run_text 7 7 1). vm_compute. reflexivity.
  - apply (proj1 (proj2 (proj2 single_run_text)) 5). lia.
  - apply (proj2 (proj2 (proj2 (proj2 single_run_text))) 5). lia.
Defined.

(** C7, as stated, fails: for [(5, 5)] the program renders the cycle of
    one row, five times, and never the text "Pick up 1 from each of 5
    rows"; the boolean revision has another wording. *)
Lemma single_run_text_fails :
  Counts.sequences (value (Counts.findMinimalRepeat 5 5)) = [mkRun 1 1] /\
  Counts.description (value (Counts.findMinimalRepeat 5 5))
    = "Pick up 1 from each of 1 row"%string /\
  Counts.description (value (Counts.findMinimalRepeat 5 5))
    <> "Pick up 1 from each of 5 rows"%string /\
  Flags.description (value (Flags.findMinimalRepeat 5 5))
    = "Pick up 1 in a row"%string.
Proof. vm_compute. repeat split. discriminate. Qed.

(** ** The guard of the pick-up flow *)












(** * Further properties of the engine *)

(** ** Size, range and prefix sums of a distribution *)

Lemma counts_loop_length ts tr (n : nat) : forall row placed,
  Z.to_nat (tr - row) = n -> List.length (Counts.loop ts tr row placed) = n.
Proof.
  induction n as [|n IH]; intros row placed Hn.
  - rewrite counts_loop_ge by lia. reflexivity.
  - rewrite counts_loop_lt by lia. cbn [List.length].
    rewrite IH by lia. reflexivity.
Qed.

(** X1. Both generators return one entry per row, and nothing when the row
    count is 0 or negative. *)
Theorem distribution_size (items slots : Z) :
  List.length (Counts.generateEvenDistribution items slots) = Z.to_nat slots /\
  List.length (Flags.generateEvenDistribution items slots) = Z.to_nat slots.
Proof.
  split.
  - apply counts_loop_length. f_equal. lia.
  - apply flags_loop_length. f_equal. lia.
Qed.

(** X2. In the range of exact rounding every entry is the whole part of
    [items / slots] or one more; with [items >= 0] no entry is negative. *)
Theorem entries_floor_or_next (items slots : Z) :
  0 <= items -> 0 < slots -> in_exact_range items slots ->
  Forall (fun e => (e = items / slots \/ e = items / slots + 1) /\ 0 <= e)
         (Doubles.generateEvenDistribution items slots).
Proof.
  intros Hi Hs R. rewrite doubles_generate_exact by assumption.
  pose proof (Z.div_pos items slots Hi Hs) as Hq.
  eapply Forall_impl; [|apply generate_bounds, Hs].
  cbn beta. intros e He. lia.
Qed.

Lemma entries_floor_or_next_witness :
  Forall (fun e => (e = 2 \/ e = 3) /\ 0 <= e)
         (Doubles.generateEvenDistribution 7 3).
Proof.
  apply (entries_floor_or_next 7 3); [lia | lia | unfold in_exact_range; lia].
Defined.

Lemma expected_multiple k n i : 0 < n -> expected (k * n) n i = i * k.
Proof.
  intros H. rewrite expected_div by assumption.
  replace (2 * (i * (k * n)) + n) with ((i * k) * (2 * n) + n) by ring.
  rewrite Z.div_add_l by lia. rewrite Z.div_small by lia. lia.
Qed.

Lemma map_const_seq {A} (a : A) (f : nat -> A) (s n : nat) :
  (forall k, f k = a) -> map f (seq s n) = repeat a n.
Proof.
  intros Hf. revert s. induction n as [|n IH]; intros s; cbn [seq map repeat].
  - reflexivity.
  - rewrite Hf, IH. reflexivity.
Qed.

Lemma generate_multiple (k slots : Z) :
  0 < slots ->
  Counts.generateEvenDistribution (k * slots) slots = repeat k (Z.to_nat slots).
Proof.
  intros Hs. rewrite generate_entries by assumption.
  apply map_const_seq. intros i. unfold entry.
  rewrite !expected_multiple by assumption. ring.
Qed.

(** X3. In the range of exact rounding, when the rows divide the stitches
    every row gets the same count: all zeros for no stitches, all ones for
    as many stitches as rows. *)
Theorem multiple_is_constant (k slots : Z) :
  0 <= k -> 0 < slots -> in_exact_range (k * slots) slots ->
  Doubles.generateEvenDistribution (k * slots) slots = repeat k (Z.to_nat slots).
Proof.
  intros Hk Hs R. rewrite doubles_generate_exact by (assumption || nia).
  apply generate_multiple, Hs.
Qed.

Lemma multiple_is_constant_witness :
  Doubles.generateEvenDistribution (3 * 4) 4 = [3; 3; 3; 3] /\
  Doubles.generateEvenDistribution (0 * 4) 4 = [0; 0; 0; 0] /\
  Doubles.generateEvenDistribution (1 * 4) 4 = [1; 1; 1; 1].
Proof.
  split; [|split].
  - apply (multiple_is_constant 3 4); [lia | lia | unfold in_exact_range; lia].
  - apply (multiple_is_constant 0 4); [lia | lia | unfold in_exact_range; lia].
  - apply (multiple_is_constant 1 4); [lia | lia | unfold in_exact_range; lia].
Defined.

Lemma sum_entries ts tr (n : nat) : forall s : nat,
  sum (map (fun k => entry ts tr (Z.of_nat k)) (seq s n))
    = expected ts tr (Z.of_nat (s + n)) - expected ts tr (Z.of_nat s).
Proof.
  induction n as [|n IH]; intros s; cbn [seq map].
  - rewrite Nat.add_0_r. cbn. lia.
  - change (sum (?a :: ?l)) with (a + sum l). rewrite IH. unfold entry.
    replace (Z.of_nat (S s)) with (Z.of_nat s + 1) by lia.
    replace (Z.of_nat (s + S n)) with (Z.of_nat (S s + n)) by lia.
    lia.
Qed.

Lemma firstn_seq_le (n m s : nat) :
  (n <= m)%nat -> firstn n (seq s m) = seq s n.
Proof.
  revert m s. induction n as [|n IH]; intros m s H.
  - reflexivity.
  - destruct m as [|m]; [lia|]. cbn [seq firstn]. rewrite IH by lia. reflexivity.
Qed.

Lemma expected_near ts tr k :
  0 < tr -> Z.abs (2 * tr * expected ts tr k - 2 * (k * ts)) <= tr.
Proof.
  intros H. rewrite expected_div by assumption.
  pose proof (Z.div_mod (2 * (k * ts) + tr) (2 * tr) ltac:(lia)) as E.
  pose proof (Z.mod_pos_bound (2 * (k * ts) + tr) (2 * tr) ltac:(lia)) as B.
  lia.
Qed.

(** X4. In the range of exact rounding the first [k] rows together hold
    the cumulative target [round(k * items / slots)]: never more than half
    a stitch away from the exact share [k * items / slots]. *)
Theorem prefix_on_target (items slots k : Z) :
  0 <= items -> 0 < slots -> in_exact_range items slots -> 0 <= k <= slots ->
  let placed :=
    sum (firstn (Z.to_nat k) (Doubles.generateEvenDistribution items slots)) in
  placed = expected items slots k /\
  Z.abs (2 * slots * placed - 2 * (k * items)) <= slots.
Proof.
  intros Hi Hs R Hk placed. subst placed.
  rewrite doubles_generate_exact by assumption.
  rewrite generate_entries by assumption.
  rewrite firstn_map, firstn_seq_le by lia.
  rewrite sum_entries. cbn [Nat.add Z.of_nat].
  rewrite expected_0 by assumption. rewrite Z2Nat.id by lia.
  rewrite Z.sub_0_r. split; [reflexivity | apply expected_near, Hs].
Qed.

Lemma prefix_on_target_witness :
  sum (firstn 4 (Doubles.generateEvenDistribution 3 8)) = expected 3 8 4.
Proof.
  apply (prefix_on_target 3 8 4); [lia | lia | unfold in_exact_range; lia | lia].
Defined.

(** ** The boolean generator beyond one stitch per row *)

(** X5. With at least as many stitches as rows the boolean generator picks up
    in every row and drops the rest: it places [min(items, slots)]
    stitches in all. *)
Theorem flags_at_most_one_per_row (items slots : Z) :
  0 <= items -> 0 < slots ->
  (slots <= items ->
     Flags.generateEvenDistribution items slots = repeat true (Z.to_nat slots)) /\
  pickups (Flags.generateEvenDistribution items slots) = Z.min items slots.
Proof.
  intros Hi Hs.
  assert (F : slots <= items ->
              Flags.generateEvenDistribution items slots = repeat true (Z.to_nat slots)).
  { intros H. apply flags_loop_full; lia. }
  split; [exact F|].
  destruct (Z_le_gt_dec slots items) as [H|H].
  - rewrite F, pickups_repeat_true by assumption. lia.
  - rewrite <- sum_flags.
    unfold Flags.generateEvenDistribution.
    pose proof (flags_loop_counts items slots (Z.to_nat slots) 0 Hs
                  ltac:(lia) (f_equal Z.to_nat (Z.sub_0_r slots))) as E.
    rewrite expected_0 in E by assumption. rewrite E.
    fold (Counts.generateEvenDistribution items slots).
    rewrite sum_generate by assumption. lia.
Qed.

Lemma flags_at_most_one_per_row_witness :
  Flags.generateEvenDistribution 5 2 = [true; true] /\
  pickups (Flags.generateEvenDistribution 5 2) = 2.
Proof.
  destruct (flags_at_most_one_per_row 5 2) as [F P]; [lia | lia |].
  split; [apply F; lia | exact P].
Defined.

(** ** The two scans *)

(** X6. The runs that [findMinimalRepeat] scans from any pattern, of counts or
    of booleans, partition it: the rows add up to its length, the runs
    written out give it back, neighbouring runs differ, and no run is
    empty.  An empty pattern has no runs. *)
Theorem sequences_partition :
  (forall l : list Z,
     total_rows (sequences_of Z.eqb l) = Z.of_nat (List.length l) /\
     expand_all (sequences_of Z.eqb l) = l /\
     no_equal_neighbours (map run_value (sequences_of Z.eqb l)) /\
     Forall (fun s => 1 <= run_rows s) (sequences_of Z.eqb l)) /\
  (forall l : list bool,
     total_rows (sequences_of Bool.eqb l) = Z.of_nat (List.length l) /\
     expand_all (sequences_of Bool.eqb l) = l /\
     no_equal_neighbours (map run_value (sequences_of Bool.eqb l)) /\
     Forall (fun s => 1 <= run_rows s) (sequences_of Bool.eqb l)).
Proof.
  split; intros l.
  - destruct (sequences_of_partitions Z.eqb Z.eqb_eq l) as ((H1 & H2 & H3) & H4).
    auto.
  - destruct (sequences_of_partitions Bool.eqb bool_eqb_eq l) as ((H1 & H2 & H3) & H4).
    auto.
Qed.

(** X7. On a non-empty distribution the scan of [describeDistribution] and the
    scan of [findMinimalRepeat] find the same runs. *)
Theorem scans_agree :
  (forall l : list Z, l <> [] ->
     run_scan Z.eqb l = map read_run (sequences_of Z.eqb l)) /\
  (forall l : list bool, l <> [] ->
     run_scan Bool.eqb l = map read_run (sequences_of Bool.eqb l)).
Proof.
  split; intros [|x l] H; try congruence;
    unfold run_scan; cbn [tl hd_error]; rewrite run_loop_sequences;
    simp sequences_of; reflexivity.
Qed.

Lemma scans_agree_witness :
  run_scan Z.eqb [0; 1; 1; 0] = map read_run (sequences_of Z.eqb [0; 1; 1; 0]).
Proof. apply (proj1 scans_agree). discriminate. Defined.

(** X8. Without rows [describeDistribution] still reports one run: a run of
    [undefined] of length 1, over an empty distribution.  (The scans
    differ here: [findMinimalRepeat] finds no run.) *)
Theorem describe_without_rows (totalStitches totalRows : Z) :
  totalRows <= 0 ->
  Counts.distribution (value (Counts.describeDistribution totalStitches totalRows)) = [] /\
  Counts.runs (value (Counts.describeDistribution totalStitches totalRows))
    = [mkRun None 1] /\
  Flags.distribution (value (Flags.describeDistribution totalStitches totalRows)) = [] /\
  Flags.runs (value (Flags.describeDistribution totalStitches totalRows))
    = [mkRun None 1].
Proof.
  intros H.
  assert (C : Counts.generateEvenDistribution totalStitches totalRows = [])
    by (apply counts_loop_ge; lia).
  assert (F : Flags.generateEvenDistribution totalStitches totalRows = [])
    by (apply flags_loop_ge; lia).
  destruct (counts_describeDistribution_runs totalStitches totalRows) as [C1 C2].
  destruct (flags_describeDistribution_runs totalStitches totalRows) as [F1 F2].
  cbn zeta in *. rewrite C2, F2, C1, F1, C, F. repeat split.
Qed.

Lemma describe_without_rows_witness :
  Counts.runs (value (Counts.describeDistribution 3 0)) = [mkRun None 1].
Proof. apply (describe_without_rows 3 0). lia. Defined.

(** ** More on the repeat-cycle reducer *)

(** X9. In the range of exact rounding one cycle has [cycleRows] entries
    that add up to [cycleStitches]; [repeats] cycles make up the rows and
    the stitches asked for; and the runs found are the runs of the
    cycle. *)
Theorem cycle_shape (items slots : Z) :
  0 <= items -> 0 < slots -> in_exact_range items slots ->
  let r := value (Counts.findMinimalRepeat items slots) in
  exists cycleItems cycleSlots : Z,
    Counts.cycleStitches r = Some cycleItems /\
    Counts.cycleRows r = Some cycleSlots /\
    0 < cycleSlots /\
    Counts.pattern r = Doubles.generateEvenDistribution cycleItems cycleSlots /\
    List.length (Counts.pattern r) = Z.to_nat cycleSlots /\
    sum (Counts.pattern r) = cycleItems /\
    Counts.repeats r * cycleSlots = slots /\
    Counts.repeats r * cycleItems = items /\
    expand_all (Counts.sequences r) = Counts.pattern r.
Proof.
  intros Hi Hs R r. subst r.
  destruct (counts_findMinimalRepeat_reduced items slots Hi Hs)
    as (Hg & Hcs & Ei & Es & ->).
  exists (items / Z.gcd items slots), (slots / Z.gcd items slots).
  cbn [Counts.cycleStitches Counts.cycleRows Counts.pattern Counts.repeats
       Counts.sequences].
  repeat split; try (symmetry; assumption); try assumption.
  - symmetry. apply doubles_generate_exact; [nia | assumption |].
    apply (exact_range_reduced (Z.gcd items slots)); [assumption | nia | assumption |].
    rewrite <- Ei, <- Es. exact R.
  - apply generate_length, Hcs.
  - apply sum_generate, Hcs.
  - apply (sequences_of_partitions Z.eqb Z.eqb_eq).
Qed.

Lemma cycle_shape_witness :
  sum (Counts.pattern (value (Counts.findMinimalRepeat 6 16))) = 3 /\
  List.length (Counts.pattern (value (Counts.findMinimalRepeat 6 16))) = 8%nat.
Proof.
  destruct (cycle_shape 6 16) as (ci & cs & Hi & Hs & _ & _ & L & S & _);
    [lia | lia | unfold in_exact_range; lia |].
  vm_compute in Hi, Hs. injection Hi as <-. injection Hs as <-.
  split; [exact S | exact L].
Defined.

(** X10. Reducing a reduced pair changes nothing: it is its own cycle, once. *)
Theorem reduce_twice (items slots : Z) :
  0 <= items -> 0 < slots ->
  let r := value (Counts.findMinimalRepeat items slots) in
  exists cycleItems cycleSlots : Z,
    Counts.cycleStitches r = Some cycleItems /\
    Counts.cycleRows r = Some cycleSlots /\
    let r' := value (Counts.findMinimalRepeat cycleItems cycleSlots) in
    Counts.repeats r' = 1 /\
    Counts.cycleStitches r' = Some cycleItems /\
    Counts.cycleRows r' = Some cycleSlots /\
    Counts.pattern r' = Counts.pattern r /\
    Counts.description r' = Counts.description r.
Proof.
  intros Hi Hs r. subst r.
  destruct (counts_findMinimalRepeat_reduced items slots Hi Hs)
    as (Hg & Hcs & Ei & Es & ->).
  set (g := Z.gcd items slots) in *.
  set (ci := items / g) in *. set (cs := slots / g) in *.
  assert (Hci : 0 <= ci) by nia.
  assert (C : Z.gcd ci cs = 1) by (apply Z.gcd_div_gcd; [lia | reflexivity]).
  exists ci, cs. cbn [Counts.cycleStitches Counts.cycleRows Counts.pattern
    Counts.description].
  split; [reflexivity | split; [reflexivity|]].
  destruct (counts_findMinimalRepeat_reduced ci cs Hci Hcs) as (_ & _ & _ & _ & ->).
  rewrite C, !Z.div_1_r. cbn. repeat split.
Qed.

Lemma reduce_twice_witness :
  Counts.repeats (value (Counts.findMinimalRepeat 3 8)) = 1.
Proof.
  destruct (reduce_twice 6 16) as (ci & cs & Hi & Hs & R & _); [lia | lia |].
  vm_compute in Hi, Hs. injection Hi as <-. injection Hs as <-. exact R.
Defined.

(** X11. The reducer's cycle is [NaN] exactly when both counts are 0, whatever
    their signs otherwise; the pattern is then empty and so is the text,
    and 0 repeats are announced. *)
Theorem reduce_nan (items slots : Z) :
  let r := value (Counts.findMinimalRepeat items slots) in
  (Counts.cycleStitches r = None <-> items = 0 /\ slots = 0) /\
  (Counts.cycleRows r = None <-> items = 0 /\ slots = 0) /\
  (items = 0 /\ slots = 0 ->
     Counts.repeats r = 0 /\ Counts.pattern r = [] /\
     Counts.sequences r = [] /\ Counts.description r = ""%string).
Proof.
  intros r. subst r. rewrite counts_findMinimalRepeat_value. cbn zeta.
  cbn [Counts.cycleStitches Counts.cycleRows Counts.repeats Counts.pattern
       Counts.sequences Counts.description].
  rewrite gcdZ_loop. pose proof (gcd_loop_zero items slots) as Z0.
  unfold js_quot. destruct (Z.eqb_spec (gcd_loop items slots) 0) as [E|N].
  - apply Z0 in E as [-> ->]. repeat split; try reflexivity.
  - repeat split; try discriminate; intros;
      match goal with
      | H : _ = 0 /\ _ = 0 |- _ => apply Z0 in H; contradiction
      end.
Qed.

(** X12. In the range of exact rounding a pattern that is a single run is a
    single row: when [findMinimalRepeat] finds one run only, that run has
    1 row, the cycle has 1 row, and the stitches are a multiple of the
    rows.  The one-run texts then end in "1 row". *)
Theorem single_run_is_one_row (items slots : Z) (s : Run Z) :
  0 <= items -> 0 < slots -> in_exact_range items slots ->
  Counts.sequences (value (Counts.findMinimalRepeat items slots)) = [s] ->
  run_rows s = 1 /\
  Counts.cycleRows (value (Counts.findMinimalRepeat items slots)) = Some 1 /\
  Counts.repeats (value (Counts.findMinimalRepeat items slots)) = slots /\
  items = run_value s * slots.
Proof. intros Hi Hs _. apply one_run_one_row; assumption. Qed.

Lemma single_run_is_one_row_witness :
  run_rows (mkRun 2 1) = 1 /\ 10 = run_value (mkRun 2 1) * 5.
Proof.
  destruct (single_run_is_one_row 10 5 (mkRun 2 1)) as (R & _ & _ & E);
    [lia | lia | unfold in_exact_range; lia | vm_compute; reflexivity |].
  split; [exact R | exact E].
Defined.



(** ** The run-based planner *)

Lemma plan_loop_totals (remainingPickups remainingSkips : Z) :
  steps_total pickup_step (plan_loop remainingPickups remainingSkips)
    = Z.max remainingPickups 0 /\
  steps_total skip_step (plan_loop remainingPickups remainingSkips)
    = Z.max remainingSkips 0 /\
  Forall (fun s => 1 <= count s) (plan_loop remainingPickups remainingSkips).
Proof.
  funelim (plan_loop remainingPickups remainingSkips);
    try match goal with
        | IH : _ /\ _ /\ _ |- _ => destruct IH as (P & S & F)
        end;
    cbn [steps_total same_type type count];
    repeat split; try lia; repeat constructor; cbn [count]; try lia; assumption.
Qed.

Lemma steps_total_app t (l1 l2 : list Step) :
  steps_total t (l1 ++ l2) = steps_total t l1 + steps_total t l2.
Proof.
  induction l1 as [|s l1 IH]; cbn [app steps_total]; [reflexivity | lia].
Qed.

Lemma steps_total_rev t (l : list Step) : steps_total t (rev l) = steps_total t l.
Proof.
  induction l as [|s l IH]; cbn [rev steps_total]; [reflexivity|].
  rewrite steps_total_app, IH. cbn [steps_total]. lia.
Qed.

Lemma merge_loop_total t (pattern : list Step) : forall before last,
  steps_total t (merge_loop pattern before last)
    = steps_total t pattern + steps_total t (merged_so_far before last).
Proof.
  induction pattern as [|item pattern IH]; intros before last; cbn [merge_loop].
  - rewrite steps_total_rev. reflexivity.
  - destruct last as [l|].
    + destruct (same_type (type l) (type item)) eqn:E; rewrite IH;
        cbn [merged_so_far steps_total type count].
      * destruct (type l), (type item), t; cbn in *; try discriminate; lia.
      * lia.
    + rewrite IH. cbn [merged_so_far steps_total]. lia.
Qed.

Lemma merge_loop_positive (pattern : list Step) : forall before last,
  Forall (fun s => 1 <= count s) pattern ->
  Forall (fun s => 1 <= count s) (merged_so_far before last) ->
  Forall (fun s => 1 <= count s) (merge_loop pattern before last).
Proof.
  induction pattern as [|item pattern IH]; intros before last Hp Ha; cbn [merge_loop].
  - apply Forall_rev. exact Ha.
  - inversion Hp as [|? ? Hi Hp']; subst.
    destruct last as [l|]; cbn [merged_so_far] in Ha.
    + inversion Ha as [|? ? Hl Hb]; subst.
      destruct (same_type (type l) (type item)); apply IH; try assumption;
        cbn [merged_so_far]; repeat constructor; cbn [count];
        try assumption; try lia.
    + apply IH; [assumption|]. cbn [merged_so_far]. constructor; assumption.
Qed.

Lemma hd_error_app_cons {V} (l : list V) (a b : V) :
  hd_error ((b :: l) ++ [a]) = hd_error (b :: l).
Proof. reflexivity. Qed.

Lemma no_equal_neighbours_snoc {V} (l : list V) (a : V) :
  no_equal_neighbours l -> hd_error (rev l) <> Some a ->
  no_equal_neighbours (l ++ [a]).
Proof.
  induction l as [|b l IH]; intros N H; [exact I|].
  destruct l as [|c l].
  - cbn in *. split; [|exact I]. intros ->. apply H. reflexivity.
  - cbn [app no_equal_neighbours] in *. destruct N as [Hbc N].
    split; [exact Hbc|]. apply IH; [exact N|].
    intros E. apply H. cbn [rev] in *.
    destruct (rev l ++ [c]) as [|x xs] eqn:R.
    + destruct (rev l); discriminate.
    + cbn in *. exact E.
Qed.

Lemma no_equal_neighbours_rev {V} (l : list V) :
  no_equal_neighbours l -> no_equal_neighbours (rev l).
Proof.
  induction l as [|a l IH]; intros N; [exact I|].
  cbn [rev]. apply no_equal_neighbours_snoc.
  - apply IH. destruct l; [exact I | apply N].
  - rewrite rev_involutive. destruct l as [|b l]; [discriminate|].
    cbn in *. intros [= ->]. apply (proj1 N). reflexivity.
Qed.

Lemma same_type_false (a b : StepType) : same_type a b = false -> a <> b.
Proof. destruct a, b; cbn; congruence. Qed.

Lemma merge_loop_alternates (pattern : list Step) : forall before last,
  (last = None -> before = []) ->
  no_equal_neighbours (map type (merged_so_far before last)) ->
  no_equal_neighbours (map type (merge_loop pattern before last)).
Proof.
  induction pattern as [|item pattern IH]; intros before last Hn Ha; cbn [merge_loop].
  - rewrite map_rev. apply no_equal_neighbours_rev. exact Ha.
  - destruct last as [l|].
    + destruct (same_type (type l) (type item)) eqn:E; apply IH; try discriminate.
      * exact Ha.
      * cbn [merged_so_far map] in *. split; [|exact Ha].
        apply same_type_false in E. congruence.
    + rewrite (Hn eq_refl). apply IH; [discriminate | exact I].
Qed.

(** X14. For fewer stitches than rows [calculateDistribution] plans one cycle:
    the cycles make up the rows and the stitches; the steps of the cycle
    pick up [pickupsPerCycle] and skip [skipsPerCycle] rows; pick-up and
    skip steps alternate and none is empty; and the cycle is the one
    that [findMinimalRepeat] finds. *)
Theorem plan_accounts (totalStitches totalRows : Z) :
  0 <= totalStitches -> totalStitches < totalRows ->
  exists d : Distribution,
    calculateDistribution totalStitches totalRows = inr d /\
    cycles d * cycleLength d = totalRows /\
    cycles d * pickupsPerCycle d = totalStitches /\
    cycleLength d = pickupsPerCycle d + skipsPerCycle d /\
    steps_total pickup_step (dist_pattern d) = pickupsPerCycle d /\
    steps_total skip_step (dist_pattern d) = skipsPerCycle d /\
    no_equal_neighbours (map type (dist_pattern d)) /\
    Forall (fun s => 1 <= count s) (dist_pattern d) /\
    cycles d = Counts.repeats (value (Counts.findMinimalRepeat totalStitches totalRows)) /\
    Some (cycleLength d)
      = Counts.cycleRows (value (Counts.findMinimalRepeat totalStitches totalRows)).
Proof.
  intros Hs Hr. unfold calculateDistribution.
  destruct (Z.geb_spec totalStitches totalRows); [lia|].
  eexists. split; [reflexivity|].
  cbn [cycles cycleLength pickupsPerCycle skipsPerCycle dist_pattern].
  destruct (counts_findMinimalRepeat_reduced totalStitches totalRows Hs ltac:(lia))
    as (Hg & _ & Ei & Er & ->).
  cbn [Counts.repeats Counts.cycleRows].
  rewrite gcdZ_nonneg_eq by lia.
  rewrite Z.gcd_sub_diag_r.
  set (g := Z.gcd totalStitches totalRows) in *.
  assert (Ek : totalRows - totalStitches = g * ((totalRows - totalStitches) / g)).
  { apply div_exact_divisor; [assumption|].
    apply Z.divide_sub_r; [apply Z.gcd_divide_r | apply Z.gcd_divide_l]. }
  set (p := totalStitches / g) in *. set (q := totalRows / g) in *.
  set (k := (totalRows - totalStitches) / g) in *.
  assert (Hp : 0 <= p) by nia. assert (Hk : 0 <= k) by nia.
  assert (Hq : q = p + k) by nia.
  destruct (plan_loop_totals p k) as (P & S & F).
  repeat split; try nia.
  - rewrite merge_loop_total, P. cbn. lia.
  - rewrite merge_loop_total, S. cbn. lia.
  - apply merge_loop_alternates; [reflexivity | exact I].
  - apply merge_loop_positive; [exact F | constructor].
  - f_equal. lia.
Qed.

Lemma plan_accounts_witness :
  exists d : Distribution,
    calculateDistribution 3 8 = inr d /\ cycles d * cycleLength d = 8.
Proof.
  destruct (plan_accounts 3 8) as (d & E & C & _); [lia | lia |].
  exists d. split; [exact E | exact C].
Defined.

(** ** What the pick-up flow shows *)









(** * Size selection and gauge combination *)


(** ** [simplifyRatio] *)

Lemma Math_round_exact_quotient (x g : Z) :
  0 < g -> (g | x) -> Math_round (inject_Z x / inject_Z g) = x / g.
Proof.
  intros Hg [k ->]. change (Math_round (js_div (k * g) g) = k * g / g).
  rewrite Math_round_js_div by assumption.
  rewrite Z.div_mul by lia.
  replace (2 * (k * g) + g) with (k * (2 * g) + g) by ring.
  rewrite Z.div_add_l by lia. rewrite Z.div_small by lia. lia.
Qed.

Lemma simplifyRatio_counts (x y : Z) :
  0 <= x -> 0 <= y -> x <> 0 \/ y <> 0 ->
  simplifyRatio (inject_Z x) (inject_Z y)
    = Some {| Ratio.a := x / Z.gcd x y; Ratio.b := y / Z.gcd x y |}.
Proof.
  intros Hx Hy Hnz. unfold simplifyRatio.
  change (gcd (inject_Z x) (inject_Z y)) with (gcdZ x y).
  rewrite gcdZ_nonneg_eq by assumption.
  pose proof (gcd_positive x y Hnz) as Hg.
  destruct (Z.eqb_spec (Z.gcd x y) 0); [lia|].
  rewrite !Math_round_exact_quotient;
    [reflexivity | assumption | apply Z.gcd_divide_r | assumption | apply Z.gcd_divide_l].
Qed.

(** X19. On two counts, not both 0, [simplifyRatio] gives the ratio in lowest
    terms: the two parts are coprime and in the same proportion as the
    counts. *)
Theorem simplifyRatio_lowest_terms (x y : Z) :
  0 <= x -> 0 <= y -> x <> 0 \/ y <> 0 ->
  exists r : Ratio.t,
    simplifyRatio (inject_Z x) (inject_Z y) = Some r /\
    Z.gcd (Ratio.a r) (Ratio.b r) = 1 /\
    x * Ratio.b r = y * Ratio.a r /\
    x = Z.gcd x y * Ratio.a r /\ y = Z.gcd x y * Ratio.b r.
Proof.
  intros Hx Hy Hnz. eexists. split; [apply simplifyRatio_counts; assumption|].
  cbn [Ratio.a Ratio.b].
  pose proof (gcd_positive x y Hnz) as Hg.
  pose proof (div_exact_divisor _ x Hg (Z.gcd_divide_l x y)) as Ex.
  pose proof (div_exact_divisor _ y Hg (Z.gcd_divide_r x y)) as Ey.
  repeat split; try assumption.
  - apply Z.gcd_div_gcd; [lia | reflexivity].
  - set (g := Z.gcd x y) in *. set (u := x / g) in *. set (v := y / g) in *.
    transitivity (g * u * v); [rewrite <- Ex; ring|].
    rewrite <- Z.mul_assoc, (Z.mul_comm u v), Z.mul_assoc, <- Ey. ring.
Qed.

Lemma simplifyRatio_lowest_terms_witness :
  simplifyRatio (inject_Z 9) (inject_Z 6) = Some {| Ratio.a := 3; Ratio.b := 2 |}.
Proof.
  destruct (simplifyRatio_lowest_terms 9 6) as (r & E & _); [lia | lia | lia |].
  rewrite E. vm_compute in E. injection E as <-. reflexivity.
Defined.

(** X20. [simplifyRatio] has no finite answer exactly when both inputs round
    to 0. *)
Theorem simplifyRatio_degenerate (x y : Q) :
  simplifyRatio x y = None <-> Math_round x = 0 /\ Math_round y = 0.
Proof.
  unfold simplifyRatio, gcd.
  pose proof (gcd_loop_zero (Math_round x) (Math_round y)) as Z0.
  destruct (Z.eqb_spec (gcd_loop (Math_round x) (Math_round y)) 0) as [E|N].
  - split; [intros _; apply Z0, E | reflexivity].
  - split; [discriminate | intros H; apply Z0 in H; contradiction].
Qed.

(** ** [calculateGaugeCombination] *)




(** ** Choosing a size *)












(** ** The adjusted pick-up ratio *)


